(** * A RESP-style server: decoder, dispatcher and reply encoder

    Shallow embedding of [app/main.py].  The coroutines of the program are
    sequential within one connection, so each of them becomes a function
    that threads the state of the connection's [StreamReader] (and, for the
    handlers, of its [StreamWriter]) and returns either a value or the
    exception it raises.

    Outside the model: the interpreter's recursion limit and its limit on the
    number of digits accepted by [int()], both run-time settings of the
    interpreter; the interpreter's option that removes [assert] statements;
    and errors of the transport ([drain] on a reset connection). *)

From Stdlib Require Import String Ascii Strings.Byte.
From Stdlib Require Import Decimal DecimalNat DecimalString.
From Stdlib Require Import ZArith NArith Lia Bool Arith List.
Import ListNotations.

Local Open Scope string_scope.
Local Open Scope nat_scope.
Local Open Scope list_scope.

(** ** Python values, bytes and exceptions *)

Definition bytes := list byte.

(** [b"..."] literals: the text is ASCII, CR and LF are written apart. *)
Definition B (s : string) : bytes := list_byte_of_string s.

Definition END_OF_FIELD : bytes := [x0d; x0a].

Inductive RedisDataType := SimpleString | BulkString | LIST.

(** What [read_data] returns: a [str] or a [list] of such values. *)
#[warnings="-register-all"]
Inductive value :=
| Str (s : string)
| Lst (items : list value).

(** The exceptions the program can raise, by the statement that raises them. *)
Inductive exn :=
| UndefinedRedixType (dtype : bytes)
    (* [raise Exception(f"RedixType is not defined for [{dtype}]")] *)
| UnicodeDecodeError                  (* [.decode("ascii")] *)
| UnicodeEncodeError                  (* [.encode("ascii")] *)
| ValueError_int (literal : string)   (* [int(...)]: invalid literal *)
| ValueError_unpack                   (* [command, *arguments = []] *)
| AssertionError (bytes_read : bytes) (* the [assert] of [read_bulk_string] *)
| AttributeError_upper                (* [.upper()] on a list *)
| TypeError_join (index : nat)        (* [" ".join] on an item that is no str *)
| RecursionError.                     (* the depth allowed to [read_data] is used up *)

(** [UnicodeDecodeError] and [UnicodeEncodeError] are subclasses of
    [ValueError]. *)
Definition is_ValueError (e : exn) : bool :=
  match e with
  | UnicodeDecodeError | UnicodeEncodeError | ValueError_int _
  | ValueError_unpack => true
  | _ => false
  end.

Inductive result (A : Type) :=
| Ok (a : A)
| Raise (e : exn).
Arguments Ok {A} a.
Arguments Raise {A} e.

Definition bind {A C} (m : result A) (k : A -> result C) : result C :=
  match m with
  | Ok a => k a
  | Raise e => Raise e
  end.

Notation "x <- m ;; k" := (bind m (fun x => k))
  (at level 61, m at next level, right associativity).
Notation "' p <- m ;; k" := (bind m (fun x => let 'p := x in k))
  (at level 61, p pattern, m at next level, right associativity).

(** ** asyncio streams *)

(** The reader of a connection: the head is the reader's buffer, the tail the
    data still to be fed to it, one element per feed, until end of file. *)
Definition StreamReader := list bytes.

(** The bytes the reader has yet to deliver. *)
Definition pending (r : StreamReader) : bytes := concat r.

(** [_wait_for_data]: with an empty buffer the reader waits for the next feed
    (an empty feed does not wake it) or for end of file. *)
Fixpoint wait_for_data (r : StreamReader) : StreamReader :=
  match r with
  | [] :: incoming => wait_for_data incoming
  | _ => r
  end.

(** [StreamReader.read(n)]: up to [n] bytes of the buffer, after a wait when
    the buffer is empty; [b""] at end of file. *)
Definition read (n : nat) (r : StreamReader) : bytes * StreamReader :=
  match n with
  | 0 => ([], r)
  | _ =>
    match wait_for_data r with
    | [] => ([], [])
    | buffer :: incoming => (firstn n buffer, skipn n buffer :: incoming)
    end
  end.

(** The writer of a connection: the bytes written so far.  [drain] leaves
    them as they are. *)
Definition StreamWriter := bytes.

Definition write (w : StreamWriter) (data : bytes) : StreamWriter := w ++ data.

(** A feed boundary falls after the [k]-th pending byte: byte [k-1] is the
    last of one feed, byte [k] belongs to a later one. *)
Fixpoint boundary_at (k : nat) (r : StreamReader) : bool :=
  match r with
  | [] => false
  | buffer :: incoming =>
    if k <? length buffer then false
    else if k =? length buffer then true
    else boundary_at (k - length buffer) incoming
  end.

(** ** str and bytes methods *)

Definition is_ascii_byte (b : byte) : bool := (Byte.to_N b <? 128)%N.

Definition is_ascii_char (c : ascii) : bool := (N_of_ascii c <? 128)%N.

Fixpoint is_ascii_str (s : string) : bool :=
  match s with
  | EmptyString => true
  | String c t => is_ascii_char c && is_ascii_str t
  end.

(** [bytes.decode("ascii")] *)
Definition decode_ascii (bs : bytes) : result string :=
  if forallb is_ascii_byte bs then Ok (string_of_list_byte bs)
  else Raise UnicodeDecodeError.

(** [str.encode("ascii")] *)
Definition encode_ascii (s : string) : result bytes :=
  if is_ascii_str s then Ok (list_byte_of_string s)
  else Raise UnicodeEncodeError.

(** [==] on bytes *)
Fixpoint bytes_eqb (a b : bytes) : bool :=
  match a, b with
  | [], [] => true
  | x :: a', y :: b' => Byte.eqb x y && bytes_eqb a' b'
  | _, _ => false
  end.

(** [bytes.endswith] *)
Fixpoint endswith (content suffix : bytes) : bool :=
  match content with
  | [] => bytes_eqb [] suffix
  | _ :: t =>
    if length content =? length suffix then bytes_eqb content suffix
    else endswith t suffix
  end.

(** [str.isspace] on one character, for the code points below 256. *)
Definition isspace (c : ascii) : bool :=
  let n := N_of_ascii c in
  ((9 <=? n) && (n <=? 13) || (28 <=? n) && (n <=? 32)
   || (n =? 133) || (n =? 160))%N.

(** [str.lstrip()] *)
Fixpoint lstrip (s : string) : string :=
  match s with
  | EmptyString => EmptyString
  | String c t => if isspace c then lstrip t else s
  end.

(** [str.rstrip()] *)
Fixpoint rstrip (s : string) : string :=
  match s with
  | EmptyString => EmptyString
  | String c t =>
    match rstrip t with
    | EmptyString => if isspace c then EmptyString else String c EmptyString
    | t' => String c t'
    end
  end.

(** [str.upper()] on ASCII text (every str of this program is decoded from
    ASCII bytes). *)
Definition upper_char (c : ascii) : ascii :=
  let n := N_of_ascii c in
  if ((97 <=? n) && (n <=? 122))%N then ascii_of_N (n - 32) else c.

Fixpoint upper (s : string) : string :=
  match s with
  | EmptyString => EmptyString
  | String c t => String (upper_char c) (upper t)
  end.

(** [len(s)] and [str(n)] of an f-string field. *)
Definition len (s : string) : nat := String.length s.

Definition str_of_nat (n : nat) : string :=
  NilEmpty.string_of_uint (Nat.to_uint n).

(** *** int() *)

(** The white space [int()] skips around an ASCII literal (C's [isspace]). *)
Definition Py_ISSPACE (c : ascii) : bool :=
  let n := N_of_ascii c in
  ((9 <=? n) && (n <=? 13) || (n =? 32))%N.

Fixpoint skip_space (s : string) : string :=
  match s with
  | EmptyString => EmptyString
  | String c t => if Py_ISSPACE c then skip_space t else s
  end.

Fixpoint all_space (s : string) : bool :=
  match s with
  | EmptyString => true
  | String c t => Py_ISSPACE c && all_space t
  end.

Definition digit_of (c : ascii) : option Z :=
  let n := N_of_ascii c in
  if ((48 <=? n) && (n <=? 57))%N then Some (Z.of_N (n - 48)) else None.

(** The digits of a base-10 literal: single underscores between digits are
    accepted, white space may follow the last digit. *)
Fixpoint int_digits (acc : Z) (after_digit : bool) (s : string) : option Z :=
  match s with
  | EmptyString => if after_digit then Some acc else None
  | String c t =>
    match digit_of c with
    | Some d => int_digits (10 * acc + d) true t
    | None =>
      if negb after_digit then None
      else if Ascii.eqb c "_" then int_digits acc false t
      else if all_space s then Some acc
      else None
    end
  end.

(** [int(s)] for a str [s], base 10. *)
Definition int (s : string) : result Z :=
  let s1 := skip_space s in
  let '(negative, s2) :=
    match s1 with
    | String "+" t => (false, t)
    | String "-" t => (true, t)
    | _ => (false, s1)
    end in
  match int_digits 0 false s2 with
  | Some n => Ok (if negative then (- n)%Z else n)
  | None => Raise (ValueError_int s)
  end.

(** ** The program *)

Definition CR : ascii := "013"%char.
Definition LF : ascii := "010"%char.

(** The text ["\r\n"] of the program's literals. *)
Definition CRLF : string := String CR (String LF EmptyString).

Definition read_type (client_reader : StreamReader)
  : result (RedisDataType * StreamReader) :=
  let '(dtype, client_reader) := read 1 client_reader in
  if bytes_eqb dtype (B "*") then Ok (LIST, client_reader)
  else if bytes_eqb dtype (B "+") then Ok (SimpleString, client_reader)
  else if bytes_eqb dtype (B "$") then Ok (BulkString, client_reader)
  else Raise (UndefinedRedixType dtype).

(** The [while] loop of [read_next_field]: [steps] bounds its iterations. *)
Fixpoint read_next_field_loop (steps : nat) (content : bytes)
    (client_reader : StreamReader) : bytes * StreamReader :=
  match steps with
  | 0 => (content, client_reader)
  | S steps =>
    if endswith content END_OF_FIELD then (content, client_reader)
    else
      let '(data, client_reader) := read 1 client_reader in
      match data with
      | [] => (content, client_reader)
      | _ => read_next_field_loop steps (content ++ data) client_reader
      end
  end.

(** Every iteration but the last takes a pending byte, so the bound below is
    never the reason the loop stops ([read_next_field_exit]). *)
Definition read_next_field (client_reader : StreamReader)
  : bytes * StreamReader :=
  read_next_field_loop (S (length (pending client_reader))) [] client_reader.

(** [.decode("ascii").lstrip().rstrip()] *)
Definition decode_strip (bs : bytes) : result string :=
  s <- decode_ascii bs ;; Ok (rstrip (lstrip s)).

Definition read_simple_string (client_reader : StreamReader)
  : result (string * StreamReader) :=
  let '(bytes_read, client_reader) := read_next_field client_reader in
  s <- decode_strip bytes_read ;;
  Ok (s, client_reader).

(** [for i in range(n): bytes_read += await client_reader.read(1)] *)
Fixpoint read_each (n : nat) (bytes_read : bytes) (client_reader : StreamReader)
  : bytes * StreamReader :=
  match n with
  | 0 => (bytes_read, client_reader)
  | S n =>
    let '(data, client_reader) := read 1 client_reader in
    read_each n (bytes_read ++ data) client_reader
  end.

Definition read_bulk_string (client_reader : StreamReader)
  : result (string * StreamReader) :=
  let '(string_length, client_reader) := read_next_field client_reader in
  s <- decode_strip string_length ;;
  string_length <- int s ;;
  let '(bytes_read, client_reader) :=
    read_each (Z.to_nat string_length) [] client_reader in
  let '(end_of_field, client_reader) := read 2 client_reader in
  if bytes_eqb end_of_field END_OF_FIELD
  then s <- decode_strip bytes_read ;; Ok (s, client_reader)
  else Raise (AssertionError bytes_read).

Section ReadArray.

(** [read_array] calls back into [read_data]. *)
Variable read_data : StreamReader -> result (value * StreamReader).

(** [for i in range(n): result.append(await read_data(client_reader))] *)
Fixpoint read_items (n : nat) (items : list value)
    (client_reader : StreamReader) : result (list value * StreamReader) :=
  match n with
  | 0 => Ok (items, client_reader)
  | S n =>
    '(item, client_reader) <- read_data client_reader ;;
    read_items n (items ++ [item]) client_reader
  end.

Definition read_array_with (client_reader : StreamReader)
  : result (list value * StreamReader) :=
  let '(array_length, client_reader) := read_next_field client_reader in
  s <- decode_strip array_length ;;
  array_length <- int s ;;
  read_items (Z.to_nat array_length) [] client_reader.

End ReadArray.

(** [read_data], with the nesting of arrays it may descend bounded by
    [depth]; the three markers of [read_type] are the three cases of the
    [match]. *)
Fixpoint read_data_depth (depth : nat) (client_reader : StreamReader)
  : result (value * StreamReader) :=
  match depth with
  | 0 => Raise RecursionError
  | S depth =>
    '(dtype, client_reader) <- read_type client_reader ;;
    match dtype with
    | LIST =>
      '(items, client_reader) <-
        read_array_with (read_data_depth depth) client_reader ;;
      Ok (Lst items, client_reader)
    | SimpleString =>
      '(s, client_reader) <- read_simple_string client_reader ;;
      Ok (Str s, client_reader)
    | BulkString =>
      '(s, client_reader) <- read_bulk_string client_reader ;;
      Ok (Str s, client_reader)
    end
  end.

(** An array takes at least its marker from the stream, so the pending bytes
    bound the nesting: with this depth [RecursionError] is never raised
    ([read_data_depth_enough]). *)
Definition read_data (client_reader : StreamReader)
  : result (value * StreamReader) :=
  read_data_depth (S (length (pending client_reader))) client_reader.

Definition read_array (client_reader : StreamReader)
  : result (list value * StreamReader) :=
  read_array_with read_data client_reader.

(** [" ".join(arguments)]: the items are checked in order. *)
Fixpoint join_from (index : nat) (sep : string) (items : list value)
  : result string :=
  match items with
  | [] => Ok EmptyString
  | Lst _ :: _ => Raise (TypeError_join index)
  | Str s :: rest =>
    match rest with
    | [] => Ok s
    | _ => t <- join_from (S index) sep rest ;; Ok (s ++ sep ++ t)%string
    end
  end.

Definition join (sep : string) (items : list value) : result string :=
  join_from 0 sep items.

Definition make_bulk_string (arguments : list value) : result bytes :=
  joined <- join " " arguments ;;
  encode_ascii ("$" ++ str_of_nat (len joined) ++ CRLF ++ joined ++ CRLF)%string.

Definition handle_ping (client_writer : StreamWriter) : result StreamWriter :=
  data <- encode_ascii ("+PONG" ++ CRLF)%string ;;
  Ok (write client_writer data).

Definition handle_echo (client_writer : StreamWriter) (arguments : list value)
  : result StreamWriter :=
  bytes_to_send <- make_bulk_string arguments ;;
  Ok (write client_writer bytes_to_send).

(** One turn of the loop of [handle_command], from the decoded value on. *)
Definition handle_request (command : value) (client_writer : StreamWriter)
  : result StreamWriter :=
  '(command, arguments) <-
    match command with
    | Lst [] => Raise ValueError_unpack
    | Lst (first :: rest) => Ok (first, rest)
    | Str _ => Ok (command, [])
    end ;;
  match command with
  | Lst _ => Raise AttributeError_upper
  | Str name =>
    if String.eqb (upper name) "PING" then handle_ping client_writer
    else if String.eqb (upper name) "ECHO"
         then handle_echo client_writer arguments
    else Ok client_writer
  end.

(** How a connection's coroutine ends, and what it has written by then. *)
Inductive outcome :=
| Returned (written : StreamWriter)
| Raised (e : exn) (written : StreamWriter).

(** [while True] of [handle_command], for at most [turns] turns; [None] when
    they are used up. *)
Fixpoint handle_command_loop (turns : nat) (client_reader : StreamReader)
    (client_writer : StreamWriter) : option outcome :=
  match turns with
  | 0 => None
  | S turns =>
    match read_data client_reader with
    | Raise e => Some (Raised e client_writer)
    | Ok (command, client_reader) =>
      match handle_request command client_writer with
      | Raise e => Some (Raised e client_writer)
      | Ok client_writer =>
        handle_command_loop turns client_reader client_writer
      end
    end
  end.

(** Every turn takes at least a marker byte from the stream. *)
Definition handle_command (client_reader : StreamReader)
    (client_writer : StreamWriter) : option outcome :=
  handle_command_loop (S (length (pending client_reader)))
    client_reader client_writer.

(** ** Vocabulary of the properties *)

(** [follows pre r r']: from [r], reads of one byte at a time have delivered
    [pre] and left the reader as [r']. *)
Definition follows (pre : bytes) (r r' : StreamReader) : Prop :=
  pending r = pre ++ pending r' /\
  forall j, boundary_at (S j) r' = boundary_at (S j + length pre) r.

(** Text made of white space only. *)
Fixpoint whitespace (s : string) : bool :=
  match s with
  | EmptyString => true
  | String c t => isspace c && whitespace t
  end.

Definition first_char (s : string) : option ascii :=
  match s with
  | EmptyString => None
  | String c _ => Some c
  end.

Fixpoint last_char (s : string) : option ascii :=
  match s with
  | EmptyString => None
  | String c t =>
    match last_char t with
    | None => Some c
    | some => some
    end
  end.

Definition not_space (c : option ascii) : bool :=
  match c with
  | Some c => negb (isspace c)
  | None => true
  end.

(** Text that neither starts nor ends with white space. *)
Definition stripped (s : string) : bool :=
  not_space (first_char s) && not_space (last_char s).

Definition is_digit (c : ascii) : bool :=
  match digit_of c with
  | Some _ => true
  | None => false
  end.

Fixpoint digits (s : string) : bool :=
  match s with
  | EmptyString => true
  | String c t => is_digit c && digits t
  end.

(** The integer a length or count field stands for:
    [int(field.decode("ascii").lstrip().rstrip())]. *)
Definition int_field (field : bytes) : result Z :=
  s <- decode_strip field ;; int s.

(** The wire form of a bulk string: [$<length>\r\n<content>\r\n]. *)
Definition bulk_wire (content : bytes) : bytes :=
  B "$" ++ B (str_of_nat (length content)) ++ END_OF_FIELD
    ++ content ++ END_OF_FIELD.

(** [decoded_in_order r vs r']: successive calls of [read_data] from [r]
    return the values [vs], in this order, and leave the reader as [r']. *)
Inductive decoded_in_order : StreamReader -> list value -> StreamReader -> Prop :=
| decoded_nil r : decoded_in_order r [] r
| decoded_cons r v r1 vs r2 :
    read_data r = Ok (v, r1) -> decoded_in_order r1 vs r2 ->
    decoded_in_order r (v :: vs) r2.

(** The same for any decoder [rd] of one value, as [read_data] is at a
    given depth. *)
Inductive decoded_by (rd : StreamReader -> result (value * StreamReader))
  : StreamReader -> list value -> StreamReader -> Prop :=
| decoded_by_nil r : decoded_by rd r [] r
| decoded_by_cons r v r1 vs r2 :
    rd r = Ok (v, r1) -> decoded_by rd r1 vs r2 ->
    decoded_by rd r (v :: vs) r2.

Definition is_text (v : value) : bool :=
  match v with
  | Str _ => true
  | Lst _ => false
  end.

(** A value whose texts are all ASCII. *)
Fixpoint ascii_value (v : value) : bool :=
  match v with
  | Str s => is_ascii_str s
  | Lst items => forallb ascii_value items
  end.

(** Two outcomes of a read that agree: the same exception, or the same
    result with the same bytes left pending. *)
Definition same_outcome {A} (x y : result (A * StreamReader)) : Prop :=
  match x, y with
  | Ok (a, r), Ok (b, q) => a = b /\ pending r = pending q
  | Raise e, Raise e' => e = e'
  | _, _ => False
  end.

(** A value whose texts, at any depth, all satisfy [P]. *)
Fixpoint all_texts (P : string -> bool) (v : value) : bool :=
  match v with
  | Str s => P s
  | Lst items => forallb (all_texts P) items
  end.

(** ** The stream reader *)

Lemma follows_refl r : follows [] r r.
Proof.
  split; [reflexivity|]. intros j. simpl. now rewrite Nat.add_0_r.
Qed.

Lemma follows_trans p1 p2 r r1 r2 :
  follows p1 r r1 -> follows p2 r1 r2 -> follows (p1 ++ p2) r r2.
Proof.
  intros [E1 B1] [E2 B2]. split.
  - now rewrite E1, E2, app_assoc.
  - intros j. rewrite B2, length_app.
    replace (S j + (length p1 + length p2)) with (S (j + length p2) + length p1)
      by lia.
    rewrite <- B1. reflexivity.
Qed.

Lemma follows_length pre r r' :
  follows pre r r' -> length (pending r) = length pre + length (pending r').
Proof. intros [E _]. now rewrite E, length_app. Qed.

Lemma pending_wait_for_data r : pending (wait_for_data r) = pending r.
Proof.
  induction r as [|[|b buffer] incoming IH]; simpl; auto.
Qed.

Lemma wait_for_data_head r buffer incoming :
  wait_for_data r = buffer :: incoming -> buffer <> [].
Proof.
  induction r as [|[|b t] cs IH]; simpl; intros H; try discriminate; auto.
  injection H as <- _. discriminate.
Qed.

Lemma boundary_wait_for_data j r :
  boundary_at (S j) (wait_for_data r) = boundary_at (S j) r.
Proof.
  induction r as [|[|b t] cs IH]; simpl; auto.
Qed.

(** Whatever [read] returns comes off the front of the pending bytes. *)
Lemma read_pending n r data r' :
  read n r = (data, r') -> pending r = data ++ pending r'.
Proof.
  unfold read. destruct n as [|n].
  - intros [= <- <-]. reflexivity.
  - rewrite <- (pending_wait_for_data r).
    destruct (wait_for_data r) as [|buffer incoming].
    + intros [= <- <-]. reflexivity.
    + intros H. apply pair_equal_spec in H as [<- <-].
      unfold pending. cbn [concat].
      now rewrite app_assoc, firstn_skipn.
Qed.

Lemma read_eof n r : pending r = [] -> read (S n) r = ([], []).
Proof.
  intros E. unfold read.
  destruct (wait_for_data r) as [|buffer incoming] eqn:W; [reflexivity|].
  exfalso. apply (wait_for_data_head _ _ _ W).
  rewrite <- pending_wait_for_data, W in E. unfold pending in E. simpl in E.
  now apply app_eq_nil in E.
Qed.

(** [read(1)] delivers the next pending byte, wherever the feeds fall. *)
Lemma read_1_byte r b rest :
  pending r = b :: rest ->
  exists r', read 1 r = ([b], r') /\ follows [b] r r'.
Proof.
  intros E. unfold read.
  destruct (wait_for_data r) as [|buffer incoming] eqn:W.
  - rewrite <- pending_wait_for_data, W in E. discriminate.
  - pose proof (wait_for_data_head _ _ _ W) as NE.
    destruct buffer as [|x buffer]; [congruence|].
    assert (P : pending r = x :: buffer ++ pending incoming).
    { rewrite <- pending_wait_for_data, W. reflexivity. }
    rewrite E in P. injection P as -> ->.
    exists (buffer :: incoming). simpl. split; [reflexivity|]. split.
    + rewrite E. reflexivity.
    + intros j. cbn [length]. replace (S j + 1) with (S (S j)) by lia.
      rewrite <- (boundary_wait_for_data _ r), W. reflexivity.
Qed.

(** [read(2)] delivers two bytes when no feed boundary separates them. *)
Lemma read_2_bytes r a b rest :
  pending r = a :: b :: rest -> boundary_at 1 r = false ->
  exists r', read 2 r = ([a; b], r') /\ pending r' = rest.
Proof.
  intros E Hb. unfold read.
  rewrite <- boundary_wait_for_data in Hb.
  rewrite <- pending_wait_for_data in E.
  destruct (wait_for_data r) as [|buffer incoming] eqn:W; [discriminate|].
  pose proof (wait_for_data_head _ _ _ W) as NE.
  destruct buffer as [|x [|y buffer]]; [congruence|discriminate|].
  unfold pending in E. simpl in E. injection E as -> -> <-.
  eexists. split; reflexivity.
Qed.

(** ... and only the first of them when one does. *)
Lemma read_2_split r a b rest :
  pending r = a :: b :: rest -> boundary_at 1 r = true ->
  exists r', read 2 r = ([a], r').
Proof.
  intros E Hb. unfold read.
  rewrite <- boundary_wait_for_data in Hb.
  rewrite <- pending_wait_for_data in E.
  destruct (wait_for_data r) as [|buffer incoming] eqn:W; [discriminate|].
  pose proof (wait_for_data_head _ _ _ W) as NE.
  destruct buffer as [|x [|y buffer]]; [congruence| |discriminate].
  unfold pending in E. simpl in E. injection E as -> _.
  eexists. reflexivity.
Qed.

Lemma boundary_at_eof j r : pending r = [] -> boundary_at (S j) r = false.
Proof.
  induction r as [|[|b t] cs IH]; simpl; intros E; auto; discriminate.
Qed.

(** Bytes that came with one feed have no boundary between them. *)
Lemma boundary_at_one_feed k buffer incoming :
  k < length buffer -> boundary_at k (buffer :: incoming) = false.
Proof.
  intros H. cbn [boundary_at]. apply Nat.ltb_lt in H. now rewrite H.
Qed.

(** ** bytes *)

Lemma bytes_eqb_eq a b : bytes_eqb a b = true <-> a = b.
Proof.
  revert b. induction a as [|x a IH]; intros [|y b]; simpl;
    try (split; [discriminate|congruence]); try tauto.
  rewrite andb_true_iff, IH. split.
  - intros [H ->]. now apply Byte.byte_dec_bl in H as ->.
  - intros [= -> ->]. split; [apply Byte.byte_dec_lb|]; reflexivity.
Qed.

Lemma bytes_eqb_refl a : bytes_eqb a a = true.
Proof. now apply bytes_eqb_eq. Qed.

Lemma endswith_suffix content suffix :
  endswith content suffix = true -> exists p, content = p ++ suffix.
Proof.
  induction content as [|b t IH].
  - cbn [endswith]. intros H. apply bytes_eqb_eq in H as <-. now exists [].
  - cbn [endswith].
    destruct (length (b :: t) =? length suffix).
    + intros H. apply bytes_eqb_eq in H as <-. now exists [].
    + intros H. destruct (IH H) as [p ->]. now exists (b :: p).
Qed.

Lemma endswith_app p suffix : endswith (p ++ suffix) suffix = true.
Proof.
  induction p as [|b p IH].
  - destruct suffix; simpl; [reflexivity|].
    now rewrite Nat.eqb_refl, Byte.byte_dec_lb, bytes_eqb_refl.
  - cbn [app endswith].
    destruct (length (b :: p ++ suffix) =? length suffix) eqn:E; [|exact IH].
    apply Nat.eqb_eq in E. simpl in E. rewrite length_app in E. lia.
Qed.

(** A field ends at the first line feed that follows a carriage return. *)
Lemma endswith_END_OF_FIELD_In content :
  endswith content END_OF_FIELD = true -> In x0a content.
Proof.
  intros H. destruct (endswith_suffix _ _ H) as [p ->].
  apply in_or_app. right. simpl. auto.
Qed.

(** ** The field reader *)

(** The loop of [read_next_field] stops on its own condition: the content
    ends with the terminator, or the stream is at its end. *)
Lemma read_next_field_loop_exit steps content r :
  length (pending r) < steps ->
  exists pre r',
    read_next_field_loop steps content r = (content ++ pre, r') /\
    follows pre r r' /\
    (endswith (content ++ pre) END_OF_FIELD = true \/ pending r' = []).
Proof.
  revert content r. induction steps as [|steps IH]; intros content r Hlt;
    [lia|].
  cbn [read_next_field_loop].
  destruct (endswith content END_OF_FIELD) eqn:E.
  - exists [], r. rewrite app_nil_r. auto using follows_refl.
  - destruct (pending r) as [|b rest] eqn:P.
    + rewrite (read_eof 0 r P). exists [], []. rewrite app_nil_r.
      repeat split; auto.
      intros j. simpl. symmetry. rewrite Nat.add_0_r.
      now apply boundary_at_eof.
    + destruct (read_1_byte r b rest P) as (r1 & R & F). rewrite R.
      destruct (IH (content ++ [b]) r1) as (pre & r' & L & F' & X).
      { apply follows_length in F. rewrite P in F. simpl in *. lia. }
      exists (b :: pre), r'. rewrite L, <- app_assoc. simpl.
      split; [reflexivity|]. split.
      * apply (follows_trans [b] pre _ _ _ F F').
      * rewrite <- app_assoc in X. exact X.
Qed.

Lemma read_next_field_exit r :
  exists field r',
    read_next_field r = (field, r') /\ follows field r r' /\
    (endswith field END_OF_FIELD = true \/ pending r' = []).
Proof.
  destruct (read_next_field_loop_exit (S (length (pending r))) [] r)
    as (pre & r' & L & F & X); [lia|].
  exists pre, r'. auto.
Qed.

Lemma read_next_field_loop_S steps content r :
  read_next_field_loop (S steps) content r =
  if endswith content END_OF_FIELD then (content, r)
  else let '(data, r') := read 1 r in
       match data with
       | [] => (content, r')
       | _ => read_next_field_loop steps (content ++ data) r'
       end.
Proof. reflexivity. Qed.

(** A token without line feed, followed by the terminator, is read as one
    field, terminator included. *)
Lemma read_next_field_loop_token tok : forall steps content r rest,
  pending r = tok ++ END_OF_FIELD ++ rest ->
  length (pending r) < steps ->
  (forall p q, tok ++ [x0d] = p ++ q ->
               endswith (content ++ p) END_OF_FIELD = false) ->
  exists r',
    read_next_field_loop steps content r = (content ++ tok ++ END_OF_FIELD, r')
    /\ follows (tok ++ END_OF_FIELD) r r'.
Proof.
  induction tok as [|b tok IH]; intros steps content r rest P Hlt Hno.
  - simpl in P.
    destruct steps as [|[|[|steps]]]; try (rewrite P in Hlt; simpl in Hlt; lia).
    pose proof (Hno [] [x0d] eq_refl) as E0. rewrite app_nil_r in E0.
    pose proof (Hno [x0d] [] eq_refl) as E1.
    destruct (read_1_byte r _ _ P) as (r1 & R1 & F1).
    assert (P1 : pending r1 = x0a :: rest).
    { destruct F1 as [E _]. rewrite P in E. now injection E. }
    destruct (read_1_byte r1 _ _ P1) as (r2 & R2 & F2).
    exists r2. split.
    + rewrite read_next_field_loop_S, E0, R1.
      rewrite read_next_field_loop_S, E1, R2.
      rewrite read_next_field_loop_S, <- app_assoc.
      change ([x0d] ++ [x0a]) with END_OF_FIELD.
      now rewrite endswith_app.
    + apply (follows_trans [x0d] [x0a] _ _ _ F1 F2).
  - destruct steps as [|steps]; [lia|].
    cbn [read_next_field_loop].
    pose proof (Hno [] _ eq_refl) as E0. rewrite app_nil_r in E0.
    rewrite E0.
    simpl in P. destruct (read_1_byte r _ _ P) as (r1 & R1 & F1). rewrite R1.
    assert (P1 : pending r1 = tok ++ END_OF_FIELD ++ rest).
    { destruct F1 as [E _]. rewrite P in E. now injection E. }
    destruct (IH steps (content ++ [b]) r1 rest P1) as (r' & L & F).
    + rewrite P in Hlt. rewrite P1. simpl in Hlt |- *. lia.
    + intros p q E. rewrite <- app_assoc. apply (Hno (b :: p) q).
      simpl. now rewrite E.
    + exists r'. rewrite L, <- app_assoc. split; [reflexivity|].
      apply (follows_trans [b] _ _ _ _ F1 F).
Qed.

Lemma read_next_field_token r tok rest :
  pending r = tok ++ END_OF_FIELD ++ rest -> ~ In x0a tok ->
  exists r',
    read_next_field r = (tok ++ END_OF_FIELD, r') /\
    follows (tok ++ END_OF_FIELD) r r'.
Proof.
  intros P Hno.
  apply (read_next_field_loop_token tok _ [] r rest P); [lia|].
  intros p q E. simpl.
  destruct (endswith p END_OF_FIELD) eqn:W; [exfalso|reflexivity].
  apply endswith_END_OF_FIELD_In in W.
  assert (I : In x0a (tok ++ [x0d])) by (rewrite E; apply in_or_app; auto).
  apply in_app_or in I as [I|[I|[]]]; [auto|discriminate].
Qed.

(** The same, with the first terminator: no shorter run of the bytes read
    ends with it. *)
Lemma read_next_field_loop_first steps : forall content r,
  length (pending r) < steps ->
  exists pre r',
    read_next_field_loop steps content r = (content ++ pre, r') /\
    follows pre r r' /\
    (endswith (content ++ pre) END_OF_FIELD = true \/ pending r' = []) /\
    (forall p q, pre = p ++ q -> q <> [] ->
                 endswith (content ++ p) END_OF_FIELD = false).
Proof.
  induction steps as [|steps IH]; intros content r Hlt; [lia|].
  rewrite read_next_field_loop_S.
  destruct (endswith content END_OF_FIELD) eqn:E.
  - exists [], r. rewrite app_nil_r.
    repeat split; auto using follows_refl.
    + intros j. simpl. now rewrite Nat.add_0_r.
    + intros p q H Q. symmetry in H. apply app_eq_nil in H as [_ ->].
      congruence.
  - destruct (pending r) as [|b rest] eqn:P.
    + rewrite (read_eof 0 r P). exists [], []. rewrite app_nil_r.
      repeat split; auto.
      * intros j. simpl. symmetry. rewrite Nat.add_0_r.
        now apply boundary_at_eof.
      * intros p q H Q. symmetry in H. apply app_eq_nil in H as [_ ->].
        congruence.
    + destruct (read_1_byte r b rest P) as (r1 & R & F). rewrite R.
      destruct (IH (content ++ [b]) r1) as (pre & r' & L & F' & X & M).
      { apply follows_length in F. rewrite P in F. simpl in *. lia. }
      exists (b :: pre), r'. cbn [app]. rewrite L, <- app_assoc. cbn [app].
      split; [reflexivity|]. split; [|split].
      * apply (follows_trans [b] pre _ _ _ F F').
      * rewrite <- app_assoc in X. exact X.
      * intros p q H Q. destruct p as [|x p].
        -- now rewrite app_nil_r.
        -- injection H as <- H.
           specialize (M p q H Q). now rewrite <- app_assoc in M.
Qed.

(** A field that the end of the stream cuts short is returned as it came. *)
Lemma read_next_field_no_terminator r :
  ~ In x0a (pending r) ->
  exists r', read_next_field r = (pending r, r') /\ pending r' = [].
Proof.
  intros NL.
  destruct (read_next_field_loop_first (S (length (pending r))) [] r)
    as (field & r' & L & [P _] & X & _); [lia|].
  cbn [app] in *. destruct X as [X|X].
  - exfalso. apply NL. rewrite P. apply in_or_app. left.
    now apply endswith_END_OF_FIELD_In.
  - exists r'. rewrite X, app_nil_r in P. now rewrite P.
Qed.

Lemma read_each_follows n : forall acc r,
  exists pre r',
    read_each n acc r = (acc ++ pre, r') /\ pending r = pre ++ pending r'.
Proof.
  induction n as [|n IH]; intros acc r; cbn [read_each].
  - exists [], r. now rewrite app_nil_r.
  - destruct (read 1 r) as [data r1] eqn:R.
    destruct (IH (acc ++ data) r1) as (pre & r' & E & P).
    exists (data ++ pre), r'. rewrite E, <- app_assoc. split; [reflexivity|].
    now rewrite (read_pending _ _ _ _ R), P, app_assoc.
Qed.

(** The loop of [read_bulk_string] over [range(len(content))] collects the
    next pending bytes. *)
Lemma read_each_content content : forall acc r rest,
  pending r = content ++ rest ->
  exists r',
    read_each (length content) acc r = (acc ++ content, r') /\
    follows content r r'.
Proof.
  induction content as [|b content IH]; intros acc r rest P; cbn [read_each length].
  - exists r. rewrite app_nil_r. auto using follows_refl.
  - destruct (read_1_byte r b _ P) as (r1 & R & F). rewrite R.
    assert (P1 : pending r1 = content ++ rest).
    { destruct F as [E _]. rewrite P in E. now injection E. }
    destruct (IH (acc ++ [b]) r1 rest P1) as (r' & E & F').
    exists r'. rewrite E, <- app_assoc. split; [reflexivity|].
    apply (follows_trans [b] content _ _ _ F F').
Qed.

(** ** str *)

Lemma append_assoc (s t u : string) :
  ((s ++ t) ++ u = s ++ (t ++ u))%string.
Proof. induction s as [|c s IH]; simpl; congruence. Qed.

Lemma append_nil_r (s : string) : (s ++ "" = s)%string.
Proof. induction s as [|c s IH]; simpl; congruence. Qed.

Lemma length_append (s t : string) :
  String.length (s ++ t) = String.length s + String.length t.
Proof. induction s as [|c s IH]; simpl; congruence. Qed.

Lemma B_String c s : B (String c s) = byte_of_ascii c :: B s.
Proof. reflexivity. Qed.

Lemma B_append (s t : string) : B (s ++ t) = B s ++ B t.
Proof. induction s as [|c s IH]; [reflexivity|]. simpl. now rewrite !B_String, IH. Qed.

Lemma B_length (s : string) : length (B s) = String.length s.
Proof. induction s as [|c s IH]; [reflexivity|]. rewrite B_String. simpl. now rewrite IH. Qed.

Lemma string_of_list_byte_cons b bs :
  string_of_list_byte (b :: bs) = String (ascii_of_byte b) (string_of_list_byte bs).
Proof. reflexivity. Qed.

Lemma string_of_list_byte_app (a b : bytes) :
  (string_of_list_byte (a ++ b)
   = string_of_list_byte a ++ string_of_list_byte b)%string.
Proof.
  induction a as [|x a IH]; [reflexivity|].
  simpl app. now rewrite !string_of_list_byte_cons, IH.
Qed.

Lemma is_ascii_byte_char b : is_ascii_char (ascii_of_byte b) = is_ascii_byte b.
Proof. destruct b; reflexivity. Qed.

Lemma is_ascii_char_byte c : is_ascii_byte (byte_of_ascii c) = is_ascii_char c.
Proof. now rewrite <- is_ascii_byte_char, ascii_of_byte_of_ascii. Qed.

Lemma is_ascii_str_decoded bs :
  is_ascii_str (string_of_list_byte bs) = forallb is_ascii_byte bs.
Proof.
  induction bs as [|b bs IH]; [reflexivity|].
  rewrite string_of_list_byte_cons. simpl. now rewrite IH, is_ascii_byte_char.
Qed.

Lemma is_ascii_str_B s : forallb is_ascii_byte (B s) = is_ascii_str s.
Proof.
  induction s as [|c s IH]; [reflexivity|].
  rewrite B_String. simpl. now rewrite IH, is_ascii_char_byte.
Qed.

Lemma is_ascii_str_append s t :
  is_ascii_str (s ++ t) = is_ascii_str s && is_ascii_str t.
Proof. induction s as [|c s IH]; simpl; [reflexivity|]. now rewrite IH, andb_assoc. Qed.

(** Decoding ASCII bytes and encoding the text again gives the bytes back. *)
Lemma decode_ascii_ok bs :
  forallb is_ascii_byte bs = true ->
  decode_ascii bs = Ok (string_of_list_byte bs).
Proof. unfold decode_ascii. now intros ->. Qed.

Lemma decode_ascii_B s : is_ascii_str s = true -> decode_ascii (B s) = Ok s.
Proof.
  intros H. unfold decode_ascii, B. rewrite <- is_ascii_str_B in H. unfold B in H.
  now rewrite H, string_of_list_byte_of_string.
Qed.

Lemma decode_ascii_is_ascii bs s : decode_ascii bs = Ok s -> is_ascii_str s = true.
Proof.
  unfold decode_ascii. destruct (forallb is_ascii_byte bs) eqn:E; [|discriminate].
  intros [= <-]. now rewrite is_ascii_str_decoded.
Qed.

Lemma encode_ascii_ok s : is_ascii_str s = true -> encode_ascii s = Ok (B s).
Proof. unfold encode_ascii. now intros ->. Qed.

(** *** lstrip and rstrip *)

Lemma lstrip_spec s :
  exists l, (s = l ++ lstrip s)%string /\ whitespace l = true /\
            not_space (first_char (lstrip s)) = true.
Proof.
  induction s as [|c s (l & E & W & F)].
  - now exists "".
  - simpl. destruct (isspace c) eqn:C.
    + exists (String c l). simpl. rewrite C, W. split; [congruence|auto].
    + exists "". simpl. now rewrite C.
Qed.

Lemma last_char_None s : last_char s = None -> s = "".
Proof.
  destruct s as [|c s]; [reflexivity|]. simpl. now destruct (last_char s).
Qed.

Lemma rstrip_spec s :
  exists t, (s = rstrip s ++ t)%string /\ whitespace t = true /\
            not_space (last_char (rstrip s)) = true.
Proof.
  induction s as [|c s (t & E & W & L)].
  - now exists "".
  - simpl. destruct (rstrip s) as [|c' s'] eqn:R.
    + simpl in E. destruct (isspace c) eqn:C.
      * exists (String c t). simpl. rewrite C, W. split; [congruence|auto].
      * exists t. simpl. rewrite C. split; [congruence|auto].
    + exists t. split; [simpl in *; congruence|]. split; [exact W|].
      change (last_char (String c (String c' s')))
        with (match last_char (String c' s') with
              | None => Some c | some => some end).
      destruct (last_char (String c' s')) eqn:LC; [exact L|].
      now apply last_char_None in LC.
Qed.

Lemma first_char_rstrip s :
  not_space (first_char s) = true -> not_space (first_char (rstrip s)) = true.
Proof.
  destruct s as [|c s]; [auto|]. simpl. intros C.
  destruct (rstrip s); [|exact C].
  apply negb_true_iff in C. rewrite C. simpl. now rewrite C.
Qed.

(** What [.lstrip().rstrip()] returns: the text without the white space at
    its two ends. *)
Lemma strip_spec s :
  exists l t,
    (s = l ++ rstrip (lstrip s) ++ t)%string /\
    whitespace l = true /\ whitespace t = true /\
    stripped (rstrip (lstrip s)) = true.
Proof.
  destruct (lstrip_spec s) as (l & E & W & F).
  destruct (rstrip_spec (lstrip s)) as (t & E' & W' & L).
  exists l, t. split; [now rewrite <- E'|].
  unfold stripped. now rewrite first_char_rstrip, L.
Qed.

Lemma lstrip_id s : not_space (first_char s) = true -> lstrip s = s.
Proof.
  destruct s as [|c s]; [reflexivity|]. simpl. intros C.
  apply negb_true_iff in C. now rewrite C.
Qed.

Lemma rstrip_id s : not_space (last_char s) = true -> rstrip s = s.
Proof.
  induction s as [|c s IH]; [reflexivity|]. simpl.
  destruct (last_char s) eqn:L.
  - intros C. rewrite (IH C). destruct s; [discriminate|reflexivity].
  - apply last_char_None in L as ->. simpl. intros C.
    apply negb_true_iff in C. now rewrite C.
Qed.

Lemma strip_id s : stripped s = true -> rstrip (lstrip s) = s.
Proof.
  unfold stripped. intros H. apply andb_true_iff in H as [F L].
  now rewrite (lstrip_id _ F), (rstrip_id _ L).
Qed.

Lemma rstrip_whitespace t : whitespace t = true -> rstrip t = "".
Proof.
  induction t as [|c t IH]; [reflexivity|]. simpl. intros H.
  apply andb_true_iff in H as [C W]. now rewrite (IH W), C.
Qed.

Lemma rstrip_append s t :
  whitespace t = true -> rstrip (s ++ t) = rstrip s.
Proof.
  intros W. induction s as [|c s IH]; simpl.
  - now apply rstrip_whitespace.
  - now rewrite IH.
Qed.

Lemma lstrip_append s t :
  s <> "" -> not_space (first_char s) = true -> lstrip (s ++ t) = (s ++ t)%string.
Proof.
  destruct s as [|c s]; [congruence|]. simpl. intros _ C.
  apply negb_true_iff in C. now rewrite C.
Qed.

(** *** Decimal numerals *)

Lemma is_digit_facts c :
  is_digit c = true ->
  isspace c = false /\ Py_ISSPACE c = false /\ is_ascii_char c = true /\
  byte_of_ascii c <> x0a /\ c <> "+"%char /\ c <> "-"%char /\ c <> "_"%char.
Proof.
  destruct c as [[] [] [] [] [] [] [] []]; try discriminate; intros _;
    repeat split; discriminate.
Qed.

Lemma digits_string_of_uint d : digits (NilEmpty.string_of_uint d) = true.
Proof. induction d; simpl; auto. Qed.

Lemma str_of_nat_digits n : digits (str_of_nat n) = true.
Proof. apply digits_string_of_uint. Qed.

Lemma str_of_nat_nonempty n : str_of_nat n <> "".
Proof.
  unfold str_of_nat. intros E.
  assert (U : Nat.to_uint n = Nil) by (now destruct (Nat.to_uint n)).
  pose proof (Unsigned.of_to n) as H. rewrite U in H. subst n. discriminate.
Qed.

Lemma digits_whitespace_free s :
  digits s = true -> s <> "" -> stripped s = true.
Proof.
  intros D NE. unfold stripped. apply andb_true_iff. split.
  - destruct s as [|c s]; [reflexivity|]. simpl in *.
    apply andb_true_iff in D as [D _].
    apply is_digit_facts in D as (C & _). now rewrite C.
  - clear NE. induction s as [|c s IH]; [reflexivity|]. simpl in *.
    apply andb_true_iff in D as [D D'].
    destruct (last_char s) eqn:L; [now apply IH|].
    apply is_digit_facts in D as (C & _). simpl. now rewrite C.
Qed.

Lemma digits_is_ascii s : digits s = true -> is_ascii_str s = true.
Proof.
  induction s as [|c s IH]; [reflexivity|]. simpl. intros D.
  apply andb_true_iff in D as [D D'].
  apply is_digit_facts in D as (_ & _ & -> & _). now apply IH.
Qed.

Lemma digits_no_line_feed s : digits s = true -> ~ In x0a (B s).
Proof.
  induction s as [|c s IH]; [auto|]. rewrite B_String. simpl. intros D.
  apply andb_true_iff in D as [D D'].
  apply is_digit_facts in D as (_ & _ & _ & N & _).
  intros [E|I]; [congruence|now apply IH].
Qed.

Lemma int_digits_uint d : forall a after_digit,
  (d = Nil -> after_digit = true) ->
  int_digits (Z.of_nat a) after_digit (NilEmpty.string_of_uint d)
  = Some (Z.of_nat (Nat.of_uint_acc d a)).
Proof.
  induction d; intros a after_digit Hnil;
    [simpl; now rewrite Hnil|..];
    cbn [NilEmpty.string_of_uint int_digits Nat.of_uint_acc];
    match goal with
    | |- context [digit_of ?c] =>
      let v := eval vm_compute in (digit_of c) in
      change (digit_of c) with v; cbv iota
    end;
    match goal with
    | |- int_digits ?z _ _ = Some (Z.of_nat (Nat.of_uint_acc _ ?m)) =>
      replace z with (Z.of_nat m)
        by (rewrite ?Nat2Z.inj_succ, Nat.tail_mul_spec; lia)
    end;
    apply IHd; intros _; reflexivity.
Qed.

Lemma int_unsigned c s :
  Py_ISSPACE c = false -> c <> "+"%char -> c <> "-"%char ->
  int (String c s) =
  match int_digits 0 false (String c s) with
  | Some n => Ok n
  | None => Raise (ValueError_int (String c s))
  end.
Proof.
  intros Sp Plus Minus. unfold int. cbn [skip_space]. rewrite Sp.
  destruct c as [[] [] [] [] [] [] [] []]; try congruence; reflexivity.
Qed.

(** [int] reads back what [str] prints. *)
Lemma int_str_of_nat n : int (str_of_nat n) = Ok (Z.of_nat n).
Proof.
  pose proof (str_of_nat_digits n) as D.
  pose proof (str_of_nat_nonempty n) as NE.
  pose proof (int_digits_uint (Nat.to_uint n) 0 false) as I.
  rewrite (Unsigned.of_to n : Nat.of_uint_acc _ 0 = n) in I.
  fold (str_of_nat n) in I. change (Z.of_nat 0) with 0%Z in I.
  destruct (str_of_nat n) as [|c s] eqn:S; [congruence|].
  simpl in D. apply andb_true_iff in D as [D _].
  destruct (is_digit_facts c D) as (_ & Sp & _ & _ & Plus & Minus & _).
  rewrite (int_unsigned c s Sp Plus Minus), I; [reflexivity|].
  intros U. unfold str_of_nat in S. rewrite U in S. discriminate.
Qed.

(** ** Bulk strings *)

Lemma decode_strip_ok bs :
  forallb is_ascii_byte bs = true ->
  decode_strip bs = Ok (rstrip (lstrip (string_of_list_byte bs))).
Proof. intros H. unfold decode_strip. now rewrite (decode_ascii_ok _ H). Qed.

Lemma string_of_list_byte_B s : string_of_list_byte (B s) = s.
Proof. apply string_of_list_byte_of_string. Qed.

(** The field [<n>\r\n] stands for [n]. *)
Lemma int_field_str_of_nat n :
  int_field (B (str_of_nat n) ++ END_OF_FIELD) = Ok (Z.of_nat n).
Proof.
  pose proof (str_of_nat_digits n) as D.
  pose proof (str_of_nat_nonempty n) as NE.
  pose proof (digits_whitespace_free _ D NE) as St.
  unfold int_field. rewrite decode_strip_ok.
  - rewrite string_of_list_byte_app, string_of_list_byte_B.
    change (string_of_list_byte END_OF_FIELD) with CRLF.
    unfold stripped in St. apply andb_true_iff in St as [F L].
    rewrite (lstrip_append _ _ NE F), rstrip_append by reflexivity.
    rewrite (rstrip_id _ L). apply int_str_of_nat.
  - rewrite forallb_app, is_ascii_str_B, (digits_is_ascii _ D). reflexivity.
Qed.

Lemma read_bulk_string_unfold r :
  read_bulk_string r =
  let '(field, r1) := read_next_field r in
  n <- int_field field ;;
  let '(bytes_read, r2) := read_each (Z.to_nat n) [] r1 in
  let '(end_of_field, r3) := read 2 r2 in
  if bytes_eqb end_of_field END_OF_FIELD
  then s <- decode_strip bytes_read ;; Ok (s, r3)
  else Raise (AssertionError bytes_read).
Proof.
  unfold read_bulk_string, int_field.
  destruct (read_next_field r) as [field r1].
  destruct (decode_strip field); reflexivity.
Qed.

(** A field that stands for no integer stops the decoding there. *)
Lemma read_bulk_string_bad_length r field r1 e :
  read_next_field r = (field, r1) -> int_field field = Raise e ->
  read_bulk_string r = Raise e.
Proof. intros F I. now rewrite read_bulk_string_unfold, F, I. Qed.

Lemma follows_boundary pre r r' j :
  follows pre r r' -> boundary_at (S j) r' = boundary_at (S j + length pre) r.
Proof. intros [_ H]. apply H. Qed.

(** After a length field that stands for the length of [content], the
    content and its terminator are taken from the stream, provided the two
    bytes of the terminator come with one feed. *)
Lemma read_bulk_string_content r field r1 n content rest :
  read_next_field r = (field, r1) -> int_field field = Ok n ->
  pending r1 = content ++ END_OF_FIELD ++ rest ->
  length content = Z.to_nat n ->
  boundary_at (S (length content)) r1 = false ->
  exists r',
    read_bulk_string r =
      (s <- decode_strip content ;; Ok (s, r')) /\
    pending r' = rest.
Proof.
  intros F I P L Bd. rewrite read_bulk_string_unfold, F, I. cbn [bind].
  rewrite <- L.
  destruct (read_each_content content [] r1 _ P) as (r2 & E & Fo).
  rewrite E. cbn [app].
  assert (P2 : pending r2 = x0d :: x0a :: rest).
  { destruct Fo as [P' _]. rewrite P in P'. now apply app_inv_head in P'. }
  destruct (read_2_bytes r2 _ _ _ P2) as (r3 & R & P3).
  { rewrite (follows_boundary _ _ _ 0 Fo). exact Bd. }
  rewrite R. exists r3. split; [reflexivity|exact P3].
Qed.

(** With a feed boundary inside the terminator, [read(2)] returns its first
    byte only and the [assert] fails. *)
Lemma read_bulk_string_split r field r1 n content rest :
  read_next_field r = (field, r1) -> int_field field = Ok n ->
  pending r1 = content ++ END_OF_FIELD ++ rest ->
  length content = Z.to_nat n ->
  boundary_at (S (length content)) r1 = true ->
  read_bulk_string r = Raise (AssertionError content).
Proof.
  intros F I P L Bd. rewrite read_bulk_string_unfold, F, I. cbn [bind].
  rewrite <- L.
  destruct (read_each_content content [] r1 _ P) as (r2 & E & Fo).
  rewrite E. cbn [app].
  assert (P2 : pending r2 = x0d :: x0a :: rest).
  { destruct Fo as [P' _]. rewrite P in P'. now apply app_inv_head in P'. }
  destruct (read_2_split r2 _ _ _ P2) as (r3 & R).
  { rewrite (follows_boundary _ _ _ 0 Fo). exact Bd. }
  rewrite R. reflexivity.
Qed.

(** ** The value decoder *)

Lemma read_type_eof r :
  pending r = [] -> read_type r = Raise (UndefinedRedixType []).
Proof. intros E. unfold read_type. now rewrite (read_eof 0 r E). Qed.

(** A marker is one byte of the stream. *)
Lemma read_type_Ok r dtype r1 :
  read_type r = Ok (dtype, r1) -> exists b, follows [b] r r1.
Proof.
  destruct (pending r) as [|b rest] eqn:P.
  - now rewrite (read_type_eof r P).
  - destruct (read_1_byte r b rest P) as (r' & R & F).
    unfold read_type. rewrite R. intros H. exists b.
    repeat match type of H with
           | (if ?c then _ else _) = _ => destruct c
           end; injection H as _ <- || discriminate; exact F.
Qed.

Lemma read_type_marker r b rest :
  pending r = b :: rest ->
  exists r1, follows [b] r r1 /\
    read_type r =
      if bytes_eqb [b] (B "*") then Ok (LIST, r1)
      else if bytes_eqb [b] (B "+") then Ok (SimpleString, r1)
      else if bytes_eqb [b] (B "$") then Ok (BulkString, r1)
      else Raise (UndefinedRedixType [b]).
Proof.
  intros P. destruct (read_1_byte r b rest P) as (r' & R & F).
  exists r'. split; [exact F|]. unfold read_type. now rewrite R.
Qed.

Lemma read_next_field_le r field r' :
  read_next_field r = (field, r') ->
  length (pending r') <= length (pending r).
Proof.
  destruct (read_next_field_exit r) as (f & r1 & E & F & _).
  rewrite E. intros [= _ <-]. apply follows_length in F. lia.
Qed.

Lemma read_simple_string_le r s r' :
  read_simple_string r = Ok (s, r') ->
  length (pending r') <= length (pending r).
Proof.
  unfold read_simple_string.
  destruct (read_next_field r) as [field r1] eqn:F.
  destruct (decode_strip field); [|discriminate].
  intros [= _ <-]. eapply read_next_field_le, F.
Qed.

Lemma read_bulk_string_le r s r' :
  read_bulk_string r = Ok (s, r') ->
  length (pending r') <= length (pending r).
Proof.
  rewrite read_bulk_string_unfold.
  destruct (read_next_field r) as [field r1] eqn:F.
  destruct (int_field field) as [n|]; [|discriminate]. cbn [bind].
  destruct (read_each_follows (Z.to_nat n) [] r1) as (pre & r2 & E & P).
  rewrite E. destruct (read 2 r2) as [eof r3] eqn:R.
  destruct (bytes_eqb eof END_OF_FIELD); [|discriminate].
  destruct (decode_strip ([] ++ pre)); [|discriminate].
  intros [= _ <-]. apply read_next_field_le in F.
  apply read_pending in R. rewrite P, R, !length_app in F. lia.
Qed.

Section ReadArrayFacts.

Variables rd rd' : StreamReader -> result (value * StreamReader).
Variable bound : nat.

Hypothesis rd_shrinks : forall r v r',
  rd r = Ok (v, r') -> length (pending r') < length (pending r).
Hypothesis rd_agree : forall r,
  length (pending r) <= bound -> rd r = rd' r.
Hypothesis rd_deep_enough : forall r,
  length (pending r) <= bound -> rd r <> Raise RecursionError.

Lemma read_items_le n : forall items r l r',
  read_items rd n items r = Ok (l, r') ->
  length (pending r') <= length (pending r).
Proof.
  induction n as [|n IH]; intros items r l r'; cbn [read_items].
  - intros [= _ <-]. lia.
  - destruct (rd r) as [[v r1]|] eqn:E; [|discriminate]. cbn [bind].
    intros H. apply IH in H. apply rd_shrinks in E. lia.
Qed.

Lemma read_items_agree n : forall items r,
  length (pending r) <= bound ->
  read_items rd n items r = read_items rd' n items r.
Proof.
  induction n as [|n IH]; intros items r Hr; cbn [read_items];
    [reflexivity|].
  rewrite <- (rd_agree r Hr).
  destruct (rd r) as [[v r1]|] eqn:E; [|reflexivity]. cbn [bind].
  apply IH. apply rd_shrinks in E. lia.
Qed.

Lemma read_items_deep_enough n : forall items r,
  length (pending r) <= bound ->
  read_items rd n items r <> Raise RecursionError.
Proof.
  induction n as [|n IH]; intros items r Hr; cbn [read_items];
    [discriminate|].
  pose proof (rd_deep_enough r Hr) as D.
  destruct (rd r) as [[v r1]|e] eqn:E; cbn [bind].
  - apply IH. apply rd_shrinks in E. lia.
  - congruence.
Qed.

Lemma read_array_with_le r l r' :
  read_array_with rd r = Ok (l, r') ->
  length (pending r') <= length (pending r).
Proof.
  unfold read_array_with.
  destruct (read_next_field r) as [field r1] eqn:F.
  destruct (decode_strip field) as [s|]; [|discriminate]. cbn [bind].
  destruct (int s) as [n|]; [|discriminate]. cbn [bind].
  intros H. apply read_items_le in H. apply read_next_field_le in F. lia.
Qed.

Lemma read_array_with_agree r :
  length (pending r) <= bound ->
  read_array_with rd r = read_array_with rd' r.
Proof.
  intros Hr. unfold read_array_with.
  destruct (read_next_field r) as [field r1] eqn:F.
  destruct (decode_strip field) as [s|]; [|reflexivity]. cbn [bind].
  destruct (int s) as [n|]; [|reflexivity]. cbn [bind].
  apply read_items_agree. apply read_next_field_le in F. lia.
Qed.

End ReadArrayFacts.

Lemma decode_strip_Raise bs e : decode_strip bs = Raise e -> e = UnicodeDecodeError.
Proof.
  unfold decode_strip, decode_ascii.
  destruct (forallb is_ascii_byte bs); [discriminate|]. now intros [= <-].
Qed.

Lemma int_Raise s e : int s = Raise e -> e = ValueError_int s.
Proof.
  unfold int.
  destruct (match skip_space s with
            | String "+" t => (false, t)
            | String "-" t => (true, t)
            | _ => (false, skip_space s)
            end) as [negative s2].
  destruct (int_digits 0 false s2); [discriminate|]. now intros [= <-].
Qed.

(** A length or count that is not read raises a [ValueError]. *)
Lemma int_field_Raise field e :
  int_field field = Raise e -> is_ValueError e = true.
Proof.
  unfold int_field. destruct (decode_strip field) as [s|e'] eqn:D; cbn [bind].
  - intros I. now rewrite (int_Raise _ _ I).
  - intros [= <-]. now rewrite (decode_strip_Raise _ _ D).
Qed.

Lemma read_simple_string_Raise r e :
  read_simple_string r = Raise e -> e = UnicodeDecodeError.
Proof.
  unfold read_simple_string. destruct (read_next_field r) as [field r1].
  destruct (decode_strip field) eqn:D; [discriminate|].
  intros [= <-]. eapply decode_strip_Raise, D.
Qed.

Lemma read_bulk_string_Raise r e :
  read_bulk_string r = Raise e -> e <> RecursionError.
Proof.
  rewrite read_bulk_string_unfold. destruct (read_next_field r) as [field r1].
  destruct (int_field field) as [n|e'] eqn:I; cbn [bind].
  - destruct (read_each (Z.to_nat n) [] r1) as [bytes_read r2].
    destruct (read 2 r2) as [eof r3].
    destruct (bytes_eqb eof END_OF_FIELD).
    + destruct (decode_strip bytes_read) eqn:D; [discriminate|].
      intros [= <-]. now rewrite (decode_strip_Raise _ _ D).
    + now intros [= <-].
  - intros [= <-]. apply int_field_Raise in I. now destruct e'.
Qed.

Lemma read_array_with_deep_enough rd bound r :
  (forall r v r', rd r = Ok (v, r') -> length (pending r') < length (pending r)) ->
  (forall r, length (pending r) <= bound -> rd r <> Raise RecursionError) ->
  length (pending r) <= bound ->
  read_array_with rd r <> Raise RecursionError.
Proof.
  intros Hs Hd Hr. unfold read_array_with.
  destruct (read_next_field r) as [field r1] eqn:F.
  destruct (decode_strip field) as [s|] eqn:D; cbn [bind].
  - destruct (int s) as [n|] eqn:I; cbn [bind].
    + apply (read_items_deep_enough rd bound Hs Hd).
      apply read_next_field_le in F. lia.
    + now rewrite (int_Raise _ _ I).
    - now rewrite (decode_strip_Raise _ _ D).
Qed.

Lemma read_data_depth_S depth r :
  read_data_depth (S depth) r =
  ('(dtype, r1) <- read_type r ;;
   match dtype with
   | LIST =>
     '(items, r2) <- read_array_with (read_data_depth depth) r1 ;;
     Ok (Lst items, r2)
   | SimpleString => '(s, r2) <- read_simple_string r1 ;; Ok (Str s, r2)
   | BulkString => '(s, r2) <- read_bulk_string r1 ;; Ok (Str s, r2)
   end).
Proof. reflexivity. Qed.

(** Every decoded value takes at least its marker from the stream. *)
Lemma read_data_depth_shrinks depth : forall r v r',
  read_data_depth depth r = Ok (v, r') ->
  length (pending r') < length (pending r).
Proof.
  induction depth as [|depth IH]; intros r v r'; [discriminate|].
  rewrite read_data_depth_S.
  destruct (read_type r) as [[dtype r1]|] eqn:T; [|discriminate]. cbn [bind].
  destruct (read_type_Ok _ _ _ T) as (b & F).
  apply follows_length in F. simpl in F.
  destruct dtype.
  - destruct (read_simple_string r1) as [[s r2]|] eqn:E; [|discriminate].
    intros [= _ <-]. apply read_simple_string_le in E. lia.
  - destruct (read_bulk_string r1) as [[s r2]|] eqn:E; [|discriminate].
    intros [= _ <-]. apply read_bulk_string_le in E. lia.
  - destruct (read_array_with (read_data_depth depth) r1) as [[l r2]|] eqn:E;
      [|discriminate].
    intros [= _ <-]. apply (read_array_with_le _ IH) in E. lia.
Qed.

(** More depth than the pending bytes changes nothing ... *)
Lemma read_data_depth_stable depth : forall r depth',
  length (pending r) < depth -> depth <= depth' ->
  read_data_depth depth' r = read_data_depth depth r.
Proof.
  induction depth as [|depth IH]; intros r depth' Hr Hd; [lia|].
  destruct depth' as [|depth']; [lia|]. rewrite !read_data_depth_S.
  destruct (read_type r) as [[dtype r1]|] eqn:T; [|reflexivity]. cbn [bind].
  destruct (read_type_Ok _ _ _ T) as (b & F).
  apply follows_length in F. simpl in F.
  destruct dtype; try reflexivity.
  rewrite (read_array_with_agree (read_data_depth depth')
             (read_data_depth depth) (length (pending r1))).
  - reflexivity.
  - apply read_data_depth_shrinks.
  - intros c Hc. apply IH; lia.
  - lia.
Qed.

(** ... and [RecursionError] is not raised with that much. *)
Lemma read_data_depth_enough depth : forall r,
  length (pending r) < depth ->
  read_data_depth depth r <> Raise RecursionError.
Proof.
  induction depth as [|depth IH]; intros r Hr; [lia|].
  rewrite read_data_depth_S.
  destruct (read_type r) as [[dtype r1]|e] eqn:T; cbn [bind].
  - destruct (read_type_Ok _ _ _ T) as (b & F).
    apply follows_length in F. simpl in F.
    destruct dtype.
    + destruct (read_simple_string r1) as [[s r2]|] eqn:E; [discriminate|].
      cbn [bind]. now rewrite (read_simple_string_Raise _ _ E).
    + destruct (read_bulk_string r1) as [[s r2]|] eqn:E; [discriminate|].
      cbn [bind]. apply read_bulk_string_Raise in E. congruence.
    + pose proof (read_array_with_deep_enough (read_data_depth depth)
                    (length (pending r1)) r1
                    (read_data_depth_shrinks depth)) as D.
      destruct (read_array_with (read_data_depth depth) r1) as [[l r2]|];
        [discriminate|]. cbn [bind].
      intros [= ->]. apply D; [|lia|reflexivity].
      intros c Hc. apply IH. lia.
  - unfold read_type in T. destruct (read 1 r) as [dtype r1].
    repeat match type of T with
           | (if ?c then _ else _) = _ => destruct c
           end; try discriminate. now injection T as <-.
Qed.

Theorem read_data_total r : read_data r <> Raise RecursionError.
Proof. apply read_data_depth_enough. lia. Qed.

Lemma read_data_shrinks r v r' :
  read_data r = Ok (v, r') -> length (pending r') < length (pending r).
Proof. apply read_data_depth_shrinks. Qed.

(** [read_data] satisfies the equation of the source. *)
Lemma read_data_unfold r :
  read_data r =
  ('(dtype, r1) <- read_type r ;;
   match dtype with
   | LIST => '(items, r2) <- read_array r1 ;; Ok (Lst items, r2)
   | SimpleString => '(s, r2) <- read_simple_string r1 ;; Ok (Str s, r2)
   | BulkString => '(s, r2) <- read_bulk_string r1 ;; Ok (Str s, r2)
   end).
Proof.
  unfold read_data at 1. rewrite read_data_depth_S.
  destruct (read_type r) as [[dtype r1]|] eqn:T; [|reflexivity]. cbn [bind].
  destruct (read_type_Ok _ _ _ T) as (b & F).
  apply follows_length in F. simpl in F.
  destruct dtype; try reflexivity.
  unfold read_array.
  rewrite (read_array_with_agree (read_data_depth (length (pending r)))
             read_data (length (pending r1))).
  - reflexivity.
  - apply read_data_depth_shrinks.
  - intros c Hc. unfold read_data.
    apply read_data_depth_stable; lia.
  - lia.
Qed.

(** ** The connection loop *)

Lemma handle_command_loop_stable turns : forall turns' r w,
  length (pending r) < turns -> length (pending r) < turns' ->
  handle_command_loop turns r w = handle_command_loop turns' r w.
Proof.
  induction turns as [|turns IH]; intros turns' r w H H'; [lia|].
  destruct turns' as [|turns']; [lia|]. cbn [handle_command_loop].
  destruct (read_data r) as [[command r']|] eqn:E; [|reflexivity].
  destruct (handle_request command w) as [w'|]; [|reflexivity].
  apply read_data_shrinks in E. apply IH; lia.
Qed.

(** [handle_command] satisfies the equation of the source's loop. *)
Lemma handle_command_unfold r w :
  handle_command r w =
  match read_data r with
  | Raise e => Some (Raised e w)
  | Ok (command, r') =>
    match handle_request command w with
    | Raise e => Some (Raised e w)
    | Ok w' => handle_command r' w'
    end
  end.
Proof.
  unfold handle_command at 1. cbn [handle_command_loop].
  destruct (read_data r) as [[command r']|] eqn:E; [|reflexivity].
  destruct (handle_request command w) as [w'|]; [|reflexivity].
  apply read_data_shrinks in E. apply handle_command_loop_stable; lia.
Qed.

(** The loop has no other exit than an exception, and the stream is finite:
    every connection ends with one. *)
Lemma handle_command_loop_raises turns : forall r w,
  length (pending r) < turns ->
  exists e w', handle_command_loop turns r w = Some (Raised e w').
Proof.
  induction turns as [|turns IH]; intros r w H; [lia|].
  cbn [handle_command_loop].
  destruct (read_data r) as [[command r']|e] eqn:E; [|now exists e, w].
  destruct (handle_request command w) as [w'|e]; [|now exists e, w].
  apply read_data_shrinks in E. apply IH. lia.
Qed.

Lemma handle_command_raises r w :
  exists e w', handle_command r w = Some (Raised e w').
Proof. apply handle_command_loop_raises. lia. Qed.

(** What a turn writes does not depend on what was written before. *)
Lemma handle_request_frame command w :
  handle_request command w =
  match handle_request command [] with
  | Ok out => Ok (w ++ out)
  | Raise e => Raise e
  end.
Proof.
  unfold handle_request.
  destruct command as [name|[|[name|items] args]]; cbn [bind]; try reflexivity.
  - destruct (String.eqb (upper name) "PING"); [reflexivity|].
    destruct (String.eqb (upper name) "ECHO"); [reflexivity|].
    now rewrite app_nil_r.
  - destruct (String.eqb (upper name) "PING"); [reflexivity|].
    destruct (String.eqb (upper name) "ECHO"); [|now rewrite app_nil_r].
    unfold handle_echo. now destruct (make_bulk_string args).
Qed.

(** ** Arrays *)

Lemma read_items_decoded n : forall items r vs r',
  decoded_in_order r vs r' -> length vs = n ->
  read_items read_data n items r = Ok (items ++ vs, r').
Proof.
  induction n as [|n IH]; intros items r vs r' D L.
  - destruct vs; [|discriminate]. inversion D; subst. simpl.
    now rewrite app_nil_r.
  - destruct vs as [|v vs]; [discriminate|]. inversion D; subst.
    cbn [read_items]. rewrite H2. cbn [bind].
    rewrite (IH _ _ vs r'); auto. now rewrite <- app_assoc.
Qed.

Lemma read_items_Ok n : forall items r l r',
  read_items read_data n items r = Ok (l, r') ->
  exists vs, l = items ++ vs /\ length vs = n /\ decoded_in_order r vs r'.
Proof.
  induction n as [|n IH]; intros items r l r'; cbn [read_items].
  - intros [= <- <-]. exists []. rewrite app_nil_r. auto using decoded_nil.
  - destruct (read_data r) as [[v r1]|] eqn:E; [|discriminate]. cbn [bind].
    intros H. destruct (IH _ _ _ _ H) as (vs & -> & L & D).
    exists (v :: vs). rewrite <- app_assoc. simpl.
    eauto using decoded_cons.
Qed.

Lemma read_items_Raise n : forall items r vs rk e,
  decoded_in_order r vs rk -> length vs < n -> read_data rk = Raise e ->
  read_items read_data n items r = Raise e.
Proof.
  induction n as [|n IH]; intros items r vs rk e D L E; [lia|].
  cbn [read_items]. inversion D; subst.
  - now rewrite E.
  - rewrite H. cbn [bind]. apply (IH _ _ vs0 rk); auto. simpl in L. lia.
Qed.

Lemma read_array_unfold r :
  read_array r =
  let '(field, r1) := read_next_field r in
  n <- int_field field ;; read_items read_data (Z.to_nat n) [] r1.
Proof.
  unfold read_array, read_array_with, int_field.
  destruct (read_next_field r) as [field r1].
  destruct (decode_strip field); reflexivity.
Qed.

Lemma read_data_eof r :
  pending r = [] -> read_data r = Raise (UndefinedRedixType []).
Proof. intros E. now rewrite read_data_unfold, (read_type_eof r E). Qed.

(** The loop over requests that are decoded one after the other and whose
    turns raise nothing, up to the end of the stream ... *)
Lemma handle_command_stream_end r vs r' outs :
  decoded_in_order r vs r' -> pending r' = [] ->
  Forall2 (fun v out => handle_request v [] = Ok out) vs outs ->
  forall w,
    handle_command r w
    = Some (Raised (UndefinedRedixType []) (w ++ concat outs)).
Proof.
  intros D E. revert outs.
  induction D as [r|r v r1 vs r2 E1 D IH]; intros outs F w; inversion F; subst.
  - rewrite handle_command_unfold, (read_data_eof r E). simpl.
    now rewrite app_nil_r.
  - rewrite handle_command_unfold, E1, (handle_request_frame v w), H1.
    cbn [concat]. rewrite app_assoc. now apply IH.
Qed.

(** ... and up to a request whose turn raises. *)
Lemma handle_command_turn_raises r vs rk outs command r' e :
  decoded_in_order r vs rk ->
  Forall2 (fun v out => handle_request v [] = Ok out) vs outs ->
  read_data rk = Ok (command, r') -> handle_request command [] = Raise e ->
  forall w, handle_command r w = Some (Raised e (w ++ concat outs)).
Proof.
  intros D. revert outs.
  induction D as [r|r v r1 vs r2 E1 D IH]; intros outs F E H w;
    inversion F; subst.
  - rewrite handle_command_unfold, E, (handle_request_frame command w), H.
    simpl. now rewrite app_nil_r.
  - rewrite handle_command_unfold, E1, (handle_request_frame v w), H2.
    cbn [concat]. rewrite app_assoc. now apply IH.
Qed.

(** ** Replies *)

Lemma B_CRLF : B CRLF = END_OF_FIELD.
Proof. reflexivity. Qed.

Lemma B_string_of_list_byte bs : B (string_of_list_byte bs) = bs.
Proof. apply list_byte_of_string_of_list_byte. Qed.

Lemma len_string_of_list_byte bs : len (string_of_list_byte bs) = length bs.
Proof. unfold len. now rewrite <- B_length, B_string_of_list_byte. Qed.

(** [make_bulk_string] of ASCII text, as bytes. *)
Lemma make_bulk_string_text text :
  is_ascii_str text = true ->
  make_bulk_string [Str text] = Ok (bulk_wire (B text)).
Proof.
  intros A. unfold make_bulk_string, join. cbn [join_from bind].
  rewrite encode_ascii_ok.
  - unfold bulk_wire. rewrite !B_append, B_CRLF, B_length. reflexivity.
  - rewrite !is_ascii_str_append, A.
    now rewrite (digits_is_ascii _ (str_of_nat_digits _)).
Qed.

(** Decoding the wire form of [content]: the marker, the length field, the
    content and the terminator are taken from the stream, and the text is
    the content without the white space at its ends. *)
Lemma read_data_bulk_wire r content rest :
  pending r = bulk_wire content ++ rest ->
  boundary_at (length (bulk_wire content) - 1) r = false ->
  exists r1 r',
    follows (B "$" ++ B (str_of_nat (length content)) ++ END_OF_FIELD) r r1 /\
    pending r1 = content ++ END_OF_FIELD ++ rest /\
    pending r' = rest /\
    read_data r =
      (s <- decode_strip content ;; Ok (Str s, r')).
Proof.
  intros P Bd. unfold bulk_wire in P.
  set (tok := B (str_of_nat (length content))) in *.
  change (B "$") with [x24] in *. cbn [app] in P.
  destruct (read_type_marker r _ _ P) as (r0 & F0 & T).
  change (bytes_eqb [x24] (B "*")) with false in T.
  change (bytes_eqb [x24] (B "+")) with false in T.
  change (bytes_eqb [x24] (B "$")) with true in T. cbv iota in T.
  assert (P0 : pending r0 =
               tok ++ END_OF_FIELD ++ (content ++ END_OF_FIELD ++ rest)).
  { destruct F0 as [E _]. rewrite P in E. injection E as <-.
    rewrite <- app_assoc. simpl. now rewrite <- app_assoc. }
  destruct (read_next_field_token r0 tok _ P0) as (r1 & F & F1).
  { apply digits_no_line_feed, str_of_nat_digits. }
  assert (P1 : pending r1 = content ++ END_OF_FIELD ++ rest).
  { destruct F1 as [E _]. rewrite P0, app_assoc in E.
    now apply app_inv_head in E. }
  destruct (read_bulk_string_content r0 _ r1 (Z.of_nat (length content))
              content rest F) as (r' & E & P').
  - apply int_field_str_of_nat.
  - exact P1.
  - now rewrite Nat2Z.id.
  - rewrite (follows_boundary _ _ _ _ F1).
    change (S (length content) + length (tok ++ END_OF_FIELD))
      with (S (length content + length (tok ++ END_OF_FIELD))).
    rewrite (follows_boundary _ _ _ _ F0).
    rewrite <- Bd. f_equal. unfold bulk_wire. fold tok.
    change (B "$") with [x24]. rewrite !length_app. simpl. lia.
  - exists r1, r'. split; [|split; [exact P1|split; [exact P'|]]].
    + apply (follows_trans [x24] _ _ _ _ F0 F1).
    + rewrite read_data_unfold, T. cbn [bind]. rewrite E.
      now destruct (decode_strip content).
Qed.

(** ** What the decoder returns *)

Lemma decode_strip_Ok bs s :
  decode_strip bs = Ok s -> stripped s = true /\ is_ascii_str s = true.
Proof.
  unfold decode_strip. destruct (decode_ascii bs) as [t|] eqn:D; [|discriminate].
  cbn [bind]. intros [= <-].
  destruct (strip_spec t) as (l & u & E & _ & _ & S). split; [exact S|].
  apply decode_ascii_is_ascii in D. rewrite E, !is_ascii_str_append in D.
  apply andb_true_iff in D as [_ D]. now apply andb_true_iff in D as [D _].
Qed.

Lemma read_simple_string_Ok r s r' :
  read_simple_string r = Ok (s, r') -> stripped s = true /\ is_ascii_str s = true.
Proof.
  unfold read_simple_string. destruct (read_next_field r) as [field r1].
  destruct (decode_strip field) as [t|] eqn:D; [|discriminate]. cbn [bind].
  intros [= <- _]. exact (decode_strip_Ok _ _ D).
Qed.

Lemma read_bulk_string_Ok r s r' :
  read_bulk_string r = Ok (s, r') -> stripped s = true /\ is_ascii_str s = true.
Proof.
  rewrite read_bulk_string_unfold. destruct (read_next_field r) as [field r1].
  destruct (int_field field) as [n|]; [|discriminate]. cbn [bind].
  destruct (read_each (Z.to_nat n) [] r1) as [bytes_read r2].
  destruct (read 2 r2) as [eof r3].
  destruct (bytes_eqb eof END_OF_FIELD); [|discriminate].
  destruct (decode_strip bytes_read) as [t|] eqn:D; [|discriminate]. cbn [bind].
  intros [= <- _]. exact (decode_strip_Ok _ _ D).
Qed.

(** Every text the decoder returns is stripped. *)
Lemma read_data_stripped r text r' :
  read_data r = Ok (Str text, r') -> stripped text = true.
Proof.
  rewrite read_data_unfold.
  destruct (read_type r) as [[[] r1]|]; cbn [bind]; try discriminate.
  - destruct (read_simple_string r1) as [[s r2]|] eqn:E; [|discriminate].
    intros [= <- _]. apply (read_simple_string_Ok _ _ _ E).
  - destruct (read_bulk_string r1) as [[s r2]|] eqn:E; [|discriminate].
    intros [= <- _]. apply (read_bulk_string_Ok _ _ _ E).
  - destruct (read_array r1) as [[l r2]|]; discriminate.
Qed.

Lemma read_items_ascii rd :
  (forall r v r', rd r = Ok (v, r') -> ascii_value v = true) ->
  forall n items r l r',
    forallb ascii_value items = true ->
    read_items rd n items r = Ok (l, r') -> forallb ascii_value l = true.
Proof.
  intros Hrd. induction n as [|n IH]; intros items r l r' A; cbn [read_items].
  - now intros [= <- _].
  - destruct (rd r) as [[v r1]|] eqn:E; [|discriminate]. cbn [bind].
    apply IH. rewrite forallb_app, A. simpl.
    now rewrite (Hrd _ _ _ E).
Qed.

Lemma read_data_depth_ascii depth : forall r v r',
  read_data_depth depth r = Ok (v, r') -> ascii_value v = true.
Proof.
  induction depth as [|depth IH]; intros r v r'; [discriminate|].
  rewrite read_data_depth_S.
  destruct (read_type r) as [[[] r1]|]; cbn [bind]; try discriminate.
  - destruct (read_simple_string r1) as [[s r2]|] eqn:E; [|discriminate].
    intros [= <- _]. apply (read_simple_string_Ok _ _ _ E).
  - destruct (read_bulk_string r1) as [[s r2]|] eqn:E; [|discriminate].
    intros [= <- _]. apply (read_bulk_string_Ok _ _ _ E).
  - unfold read_array_with. destruct (read_next_field r1) as [field r2].
    destruct (decode_strip field) as [s|]; [|discriminate]. cbn [bind].
    destruct (int s) as [n|]; [|discriminate]. cbn [bind].
    destruct (read_items (read_data_depth depth) (Z.to_nat n) [] r2)
      as [[l r3]|] eqn:E; [|discriminate].
    intros [= <- _].
    exact (read_items_ascii _ IH _ [] _ _ _ (eq_refl true) E).
Qed.

(** Every text the decoder returns is ASCII. *)
Lemma read_data_ascii r v r' : read_data r = Ok (v, r') -> ascii_value v = true.
Proof. apply read_data_depth_ascii. Qed.

Lemma ascii_value_texts texts :
  forallb ascii_value (map Str texts) = forallb is_ascii_str texts.
Proof. induction texts as [|s texts IH]; simpl; congruence. Qed.

(** A field cut by the end of the stream is returned as it came. *)
Lemma read_next_field_cut : read_next_field [B "abc"] = (B "abc", []).
Proof. reflexivity. Qed.

(** ** The properties *)

(** C1, as the code has it.  A bulk string [$<N>\r\n<content>\r\n] with
    ASCII content, whose terminator comes with one feed, is decoded to the
    content without the white space at its ends; the decoder takes, after
    the marker and the length field, exactly the [N] content bytes and the
    2-byte terminator.  When the content neither starts nor ends with white
    space, [make_bulk_string] of the decoded text gives the wire bytes
    back. *)
Theorem bulk_string_round_trip r content rest :
  pending r = bulk_wire content ++ rest ->
  forallb is_ascii_byte content = true ->
  boundary_at (length (bulk_wire content) - 1) r = false ->
  exists text r1 r',
    read_data r = Ok (Str text, r') /\
    text = rstrip (lstrip (string_of_list_byte content)) /\
    follows (B "$" ++ B (str_of_nat (length content)) ++ END_OF_FIELD) r r1 /\
    length (pending r1) = length content + 2 + length (pending r') /\
    pending r' = rest /\
    (stripped (string_of_list_byte content) = true ->
     make_bulk_string [Str text] = Ok (bulk_wire content)).
Proof.
  intros P A Bd.
  destruct (read_data_bulk_wire r content rest P Bd)
    as (r1 & r' & F & P1 & P' & E).
  rewrite (decode_strip_ok _ A) in E. cbn [bind] in E.
  exists (rstrip (lstrip (string_of_list_byte content))), r1, r'.
  split; [exact E|]. split; [reflexivity|]. split; [exact F|].
  split; [|split; [exact P'|]].
  - rewrite P1, P', !length_app. simpl. lia.
  - intros S. rewrite (strip_id _ S), make_bulk_string_text.
    + now rewrite B_string_of_list_byte.
    + now rewrite is_ascii_str_decoded.
Qed.

Lemma bulk_string_round_trip_witness :
  let r := [B "$5" ++ END_OF_FIELD ++ B "hello" ++ END_OF_FIELD ++ B "+PING"] in
  exists text r1 r',
    read_data r = Ok (Str text, r') /\
    text = "hello" /\
    follows (B "$5" ++ END_OF_FIELD) r r1 /\
    length (pending r1) = 5 + 2 + length (pending r') /\
    pending r' = B "+PING" /\
    (true = true ->
     make_bulk_string [Str text]
     = Ok (B "$5" ++ END_OF_FIELD ++ B "hello" ++ END_OF_FIELD)).
Proof.
  exact (bulk_string_round_trip
           [B "$5" ++ END_OF_FIELD ++ B "hello" ++ END_OF_FIELD ++ B "+PING"]
           (B "hello") (B "+PING") eq_refl eq_refl eq_refl).
Defined.

(** C1, as stated, fails on content with white space at an end: the three
    content bytes [ a ] are taken from the stream, but the text is [a] and
    its encoding, with its own length or with the declared one, is not the
    original. *)
Lemma bulk_string_round_trip_padded :
  let wire := B "$3" ++ END_OF_FIELD ++ B " a " ++ END_OF_FIELD in
  read_data [wire] = Ok (Str "a", [[]]) /\
  make_bulk_string [Str "a"] = Ok (B "$1" ++ END_OF_FIELD ++ B "a" ++ END_OF_FIELD) /\
  B "$1" ++ END_OF_FIELD ++ B "a" ++ END_OF_FIELD <> wire /\
  B "$3" ++ END_OF_FIELD ++ B "a" ++ END_OF_FIELD <> wire.
Proof.
  cbv zeta. repeat split; try reflexivity; discriminate.
Qed.

(** Content that is not ASCII is not decoded at all. *)
Lemma bulk_string_not_ascii :
  read_data [B "$1" ++ END_OF_FIELD ++ [xff] ++ END_OF_FIELD]
  = Raise UnicodeDecodeError.
Proof. reflexivity. Qed.

(** A terminator that arrives in two feeds fails the [assert]. *)
Lemma bulk_string_split_terminator :
  read_data [B "$5" ++ END_OF_FIELD ++ B "hello" ++ [x0d]; [x0a]]
  = Raise (AssertionError (B "hello")).
Proof. reflexivity. Qed.

(** C2, as the code has it.  A connection never ends without an exception.
    When the stream holds complete requests and then ends: if the turn of
    every request raises nothing, the replies are written in the order of
    the requests and the next turn of the loop raises, in [read_type], the
    exception for the empty marker; if the turn of a request raises, the
    connection ends there with this exception, the replies to the requests
    before it written and nothing written for it.  A reply [out] is what the
    turn adds to the writer. *)
Theorem connection_ends_by_exception r w :
  (exists e w', handle_command r w = Some (Raised e w')) /\
  (forall vs outs r',
     decoded_in_order r vs r' -> pending r' = [] ->
     Forall2 (fun v out => handle_request v [] = Ok out) vs outs ->
     handle_command r w
     = Some (Raised (UndefinedRedixType []) (w ++ concat outs))) /\
  (forall vs outs rk command r' e,
     decoded_in_order r vs rk ->
     Forall2 (fun v out => handle_request v [] = Ok out) vs outs ->
     read_data rk = Ok (command, r') -> handle_request command [] = Raise e ->
     handle_command r w = Some (Raised e (w ++ concat outs))).
Proof.
  split; [apply handle_command_raises|]. split.
  - intros vs outs r' D E F. now apply (handle_command_stream_end r vs r').
  - intros vs outs rk command r' e D F E H.
    now apply (handle_command_turn_raises r vs rk outs command r').
Qed.

Lemma connection_ends_by_exception_witness :
  handle_command [B "*1" ++ END_OF_FIELD ++ B "$4" ++ END_OF_FIELD
                    ++ B "PING" ++ END_OF_FIELD] []
    = Some (Raised (UndefinedRedixType [])
              ([] ++ concat [B "+PONG" ++ END_OF_FIELD])) /\
  handle_command [B "+ping" ++ END_OF_FIELD ++ B "*2" ++ END_OF_FIELD
                    ++ B "+echo" ++ END_OF_FIELD ++ B "*0" ++ END_OF_FIELD] []
    = Some (Raised (TypeError_join 0)
              ([] ++ concat [B "+PONG" ++ END_OF_FIELD])).
Proof.
  split.
  - apply (proj1 (proj2 (connection_ends_by_exception
                           [B "*1" ++ END_OF_FIELD ++ B "$4" ++ END_OF_FIELD
                              ++ B "PING" ++ END_OF_FIELD] []))
             [Lst [Str "PING"]] _ [[]]).
    + apply (decoded_cons _ _ [[]]); [reflexivity|apply decoded_nil].
    + reflexivity.
    + repeat constructor.
  - apply (proj2 (proj2 (connection_ends_by_exception
                           [B "+ping" ++ END_OF_FIELD ++ B "*2" ++ END_OF_FIELD
                              ++ B "+echo" ++ END_OF_FIELD
                              ++ B "*0" ++ END_OF_FIELD] []))
             [Str "ping"] _
             [B "*2" ++ END_OF_FIELD ++ B "+echo" ++ END_OF_FIELD
                ++ B "*0" ++ END_OF_FIELD]
             (Lst [Str "echo"; Lst []]) [[]]).
    + apply (decoded_cons _ _ [B "*2" ++ END_OF_FIELD ++ B "+echo" ++ END_OF_FIELD
                                 ++ B "*0" ++ END_OF_FIELD]);
        [reflexivity|apply decoded_nil].
    + repeat constructor.
    + reflexivity.
    + reflexivity.
Defined.

(** C2, as stated, fails: after the complete request [+PING\r\n] and the end
    of the stream, the connection does not return, it raises. *)
Lemma connection_clean_close_raises :
  handle_command [B "+PING" ++ END_OF_FIELD] []
  = Some (Raised (UndefinedRedixType []) (B "+PONG" ++ END_OF_FIELD)) /\
  forall w, handle_command [B "+PING" ++ END_OF_FIELD] [] <> Some (Returned w).
Proof. split; [reflexivity|discriminate]. Qed.

(** C3, as the code has it.  A length field that stands for no integer stops
    the decoding of a bulk string with a [ValueError].  A negative length is
    not refused: no content byte is read, and the decoding goes on to the
    terminator. *)
Theorem bulk_string_length r field r1 :
  read_next_field r = (field, r1) ->
  (forall e, int_field field = Raise e ->
     read_bulk_string r = Raise e /\ is_ValueError e = true) /\
  (forall n, int_field field = Ok n -> (n < 0)%Z ->
     read_bulk_string r =
     let '(end_of_field, r2) := read 2 r1 in
     if bytes_eqb end_of_field END_OF_FIELD then Ok (EmptyString, r2)
     else Raise (AssertionError [])).
Proof.
  intros F. split.
  - intros e I. split.
    + exact (read_bulk_string_bad_length r field r1 e F I).
    + exact (int_field_Raise field e I).
  - intros n I Hn. rewrite read_bulk_string_unfold, F, I. cbn [bind].
    replace (Z.to_nat n) with 0 by lia. cbn [read_each].
    destruct (read 2 r1) as [end_of_field r2].
    now destruct (bytes_eqb end_of_field END_OF_FIELD).
Qed.

Lemma bulk_string_length_witness :
  read_bulk_string [B "five" ++ END_OF_FIELD ++ B "hello" ++ END_OF_FIELD]
    = Raise (ValueError_int "five") /\
  read_bulk_string [B "-5" ++ END_OF_FIELD ++ END_OF_FIELD; B "+PING"]
    = Ok (EmptyString, [[]; B "+PING"]).
Proof.
  split.
  - apply (proj1 (bulk_string_length
                    [B "five" ++ END_OF_FIELD ++ B "hello" ++ END_OF_FIELD]
                    (B "five" ++ END_OF_FIELD)
                    [B "hello" ++ END_OF_FIELD] eq_refl)).
    reflexivity.
  - apply (proj2 (bulk_string_length
                    [B "-5" ++ END_OF_FIELD ++ END_OF_FIELD; B "+PING"]
                    (B "-5" ++ END_OF_FIELD)
                    [END_OF_FIELD; B "+PING"] eq_refl) (-5)%Z).
    + reflexivity.
    + reflexivity.
Defined.

(** C3, as stated, fails on a negative length: [$-1\r\n\r\n] is decoded, to
    the empty text. *)
Lemma bulk_string_negative_length :
  int_field (B "-1" ++ END_OF_FIELD) = Ok (-1)%Z /\
  read_data [B "$-1" ++ END_OF_FIELD ++ END_OF_FIELD] = Ok (Str "", [[]]).
Proof. split; reflexivity. Qed.

(** ** Dispatch *)

Lemma handle_ping_reply w : handle_ping w = Ok (w ++ B "+PONG" ++ END_OF_FIELD).
Proof. reflexivity. Qed.

Lemma handle_request_PING name args w :
  upper name = "PING" ->
  handle_request (Lst (Str name :: args)) w = Ok (w ++ B "+PONG" ++ END_OF_FIELD)
  /\ handle_request (Str name) w = Ok (w ++ B "+PONG" ++ END_OF_FIELD).
Proof.
  intros U. unfold handle_request. cbn [bind]. rewrite U.
  split; reflexivity.
Qed.

Lemma handle_request_ECHO name args w :
  upper name = "ECHO" ->
  handle_request (Lst (Str name :: args)) w = handle_echo w args
  /\ handle_request (Str name) w = handle_echo w [].
Proof.
  intros U. unfold handle_request. cbn [bind]. rewrite U.
  split; reflexivity.
Qed.

Lemma handle_request_other name args w :
  upper name <> "PING" -> upper name <> "ECHO" ->
  handle_request (Lst (Str name :: args)) w = Ok w
  /\ handle_request (Str name) w = Ok w.
Proof.
  intros P E. apply String.eqb_neq in P, E.
  unfold handle_request. cbn [bind]. rewrite P, E. split; reflexivity.
Qed.

(** [join] stops at the first item that is no text. *)
Lemma join_from_not_text sep args : forall index,
  forallb is_text args = false ->
  exists k items,
    nth_error args k = Some (Lst items) /\
    forallb is_text (firstn k args) = true /\
    join_from index sep args = Raise (TypeError_join (index + k)).
Proof.
  induction args as [|[s|items] rest IH]; intros index H; [discriminate|..].
  - simpl in H. destruct (IH (S index) H) as (k & items & N & T & J).
    exists (S k), items. split; [exact N|]. split; [exact T|].
    cbn [join_from]. rewrite J. cbn [bind].
    destruct rest; [discriminate|]. f_equal. f_equal. lia.
  - exists 0, items. rewrite Nat.add_0_r. auto.
Qed.

Lemma join_texts sep texts : forall index,
  join_from index sep (map Str texts) = Ok (String.concat sep texts).
Proof.
  induction texts as [|s rest IH]; intros index; [reflexivity|].
  cbn [map join_from String.concat].
  destruct rest as [|s' rest]; [reflexivity|].
  change (Str s' :: map Str rest) with (map Str (s' :: rest)).
  now rewrite IH.
Qed.

Lemma is_ascii_str_concat sep texts :
  is_ascii_str sep = true -> forallb is_ascii_str texts = true ->
  is_ascii_str (String.concat sep texts) = true.
Proof.
  intros S. induction texts as [|s rest IH]; [reflexivity|].
  cbn [forallb String.concat]. intros H.
  apply andb_true_iff in H as [H R].
  destruct rest as [|s' rest]; [exact H|].
  now rewrite !is_ascii_str_append, H, S, (IH R).
Qed.

(** [make_bulk_string] of ASCII texts: the bulk string of their join. *)
Lemma make_bulk_string_texts texts :
  forallb is_ascii_str texts = true ->
  make_bulk_string (map Str texts) = Ok (bulk_wire (B (String.concat " " texts))).
Proof.
  intros A. unfold make_bulk_string, join. rewrite join_texts. cbn [bind].
  rewrite encode_ascii_ok.
  - unfold bulk_wire. rewrite !B_append, B_CRLF, B_length. reflexivity.
  - rewrite !is_ascii_str_append, (is_ascii_str_concat " " texts eq_refl A).
    now rewrite (digits_is_ascii _ (str_of_nat_digits _)).
Qed.

(** C4, as the code has it.  Of a list with an argument that is no text,
    only [ECHO] raises, in the [join] of [make_bulk_string] and before
    anything is written; [PING] and the names that are not recognised do not
    look at the arguments. *)
Theorem non_text_argument name args w :
  forallb is_text args = false ->
  (upper name = "ECHO" ->
   exists k items,
     nth_error args k = Some (Lst items) /\
     forallb is_text (firstn k args) = true /\
     handle_request (Lst (Str name :: args)) w = Raise (TypeError_join k)) /\
  (upper name = "PING" ->
   handle_request (Lst (Str name :: args)) w
   = Ok (w ++ B "+PONG" ++ END_OF_FIELD)) /\
  (upper name <> "PING" -> upper name <> "ECHO" ->
   handle_request (Lst (Str name :: args)) w = Ok w).
Proof.
  intros H. repeat split.
  - intros U. destruct (join_from_not_text " " args 0 H) as (k & items & N & T & J).
    exists k, items. split; [exact N|]. split; [exact T|].
    rewrite (proj1 (handle_request_ECHO name args w U)).
    unfold handle_echo, make_bulk_string, join. now rewrite J.
  - intros U. apply (handle_request_PING name args w U).
  - intros P E. apply (handle_request_other name args w P E).
Qed.

Lemma non_text_argument_witness :
  handle_request (Lst [Str "echo"; Str "a"; Lst [Str "b"]]) (B "+PONG")
  = Raise (TypeError_join 1).
Proof.
  destruct (non_text_argument "echo" [Str "a"; Lst [Str "b"]] (B "+PONG") eq_refl)
    as (E & _).
  destruct (E eq_refl) as (k & items & N & T & H).
  destruct k as [|[|k]]; try discriminate. exact H.
Defined.

(** C4, as stated, fails: the decoded list [PING, []] is answered, and the
    decoded list [GET, []] is passed over, without an exception. *)
Lemma non_text_argument_ignored :
  read_data [B "*2" ++ END_OF_FIELD ++ B "+PING" ++ END_OF_FIELD
               ++ B "*0" ++ END_OF_FIELD]
    = Ok (Lst [Str "PING"; Lst []], [[]]) /\
  handle_request (Lst [Str "PING"; Lst []]) [] = Ok (B "+PONG" ++ END_OF_FIELD) /\
  handle_request (Lst [Str "GET"; Lst []]) [] = Ok [].
Proof. repeat split. Qed.

Lemma decoded_in_order_snoc r vs rk v r' :
  decoded_in_order r vs rk -> read_data rk = Ok (v, r') ->
  decoded_in_order r (vs ++ [v]) r'.
Proof.
  intros D E. induction D as [r0|r0 v0 r3 vs r4 E0 D IH].
  - apply (decoded_cons _ _ r'); [exact E|apply decoded_nil].
  - apply (decoded_cons _ _ r3); [exact E0|exact (IH E)].
Qed.

Lemma read_data_simple_cut r content :
  pending r = x2b :: content -> ~ In x0a content ->
  forallb is_ascii_byte content = true ->
  exists r',
    read_data r = Ok (Str (rstrip (lstrip (string_of_list_byte content))), r')
    /\ pending r' = [].
Proof.
  intros P NL A. destruct (read_type_marker r _ _ P) as (r0 & [E _] & T).
  change (bytes_eqb [x2b] (B "*")) with false in T.
  change (bytes_eqb [x2b] (B "+")) with true in T. cbv iota in T.
  assert (P0 : pending r0 = content).
  { rewrite P in E. now injection E. }
  destruct (read_next_field_no_terminator r0) as (r' & F & P');
    [now rewrite P0|].
  exists r'. split; [|exact P'].
  rewrite read_data_unfold, T. cbn [bind]. unfold read_simple_string.
  now rewrite F, P0, (decode_strip_ok _ A).
Qed.

(** C5, as the code has it.  After a count field that stands for [N]: when
    [N] values are decoded one after the other, [read_array] returns these
    [N] values in their order in the stream; when a value fails to decode,
    as the next one does when the stream is at its end before [N] values are
    decoded, [read_array] raises the exception of this value; and whatever
    [read_array] returns has [N] elements, each decoded from the stream.  The
    end of the stream inside the last element is not by itself a failure: a
    simple string that it cuts short is decoded from the bytes that came, and
    the array is returned with its [N] elements. *)
Theorem array_decoding r field r1 (N : nat) :
  read_next_field r = (field, r1) -> int_field field = Ok (Z.of_nat N) ->
  (forall vs r2,
     decoded_in_order r1 vs r2 -> length vs = N ->
     read_array r = Ok (vs, r2)) /\
  (forall vs rk e,
     decoded_in_order r1 vs rk -> length vs < N -> read_data rk = Raise e ->
     read_array r = Raise e) /\
  (forall vs rk,
     decoded_in_order r1 vs rk -> length vs < N -> pending rk = [] ->
     read_array r = Raise (UndefinedRedixType [])) /\
  (forall l r2,
     read_array r = Ok (l, r2) -> length l = N /\ decoded_in_order r1 l r2) /\
  (forall vs rk content,
     decoded_in_order r1 vs rk -> S (length vs) = N ->
     pending rk = B "+" ++ content -> ~ In x0a content ->
     forallb is_ascii_byte content = true ->
     exists r2,
       read_array r
       = Ok (vs ++ [Str (rstrip (lstrip (string_of_list_byte content)))], r2)
       /\ pending r2 = []).
Proof.
  intros F I.
  assert (U : read_array r = read_items read_data N [] r1).
  { rewrite read_array_unfold, F, I. cbn [bind]. now rewrite Nat2Z.id. }
  rewrite U. split; [|split; [|split; [|split]]].
  - intros vs r2 D L. now rewrite (read_items_decoded N [] r1 vs r2 D L).
  - intros vs rk e D L E. exact (read_items_Raise N [] r1 vs rk e D L E).
  - intros vs rk D L E.
    exact (read_items_Raise N [] r1 vs rk _ D L (read_data_eof rk E)).
  - intros l r2 H.
    destruct (read_items_Ok N [] r1 l r2 H) as (vs & -> & L & D). auto.
  - intros vs rk content D L P NL A.
    destruct (read_data_simple_cut rk content P NL A) as (r2 & E & P2).
    exists r2. split; [|exact P2].
    apply (read_items_decoded N [] r1).
    + exact (decoded_in_order_snoc _ _ _ _ _ D E).
    + rewrite length_app. simpl. lia.
Qed.

Lemma array_decoding_witness :
  read_array [B "2" ++ END_OF_FIELD ++ B "+a" ++ END_OF_FIELD
                ++ B "$1" ++ END_OF_FIELD ++ B "b" ++ END_OF_FIELD]
    = Ok ([Str "a"; Str "b"], [[]]) /\
  read_array [B "2" ++ END_OF_FIELD ++ B "+a" ++ END_OF_FIELD]
    = Raise (UndefinedRedixType []).
Proof.
  split.
  - apply (proj1 (array_decoding
                    [B "2" ++ END_OF_FIELD ++ B "+a" ++ END_OF_FIELD
                       ++ B "$1" ++ END_OF_FIELD ++ B "b" ++ END_OF_FIELD]
                    (B "2" ++ END_OF_FIELD)
                    [B "+a" ++ END_OF_FIELD
                       ++ B "$1" ++ END_OF_FIELD ++ B "b" ++ END_OF_FIELD]
                    2 eq_refl eq_refl)).
    + apply (decoded_cons _ (Str "a")
               [B "$1" ++ END_OF_FIELD ++ B "b" ++ END_OF_FIELD]);
        [reflexivity|].
      apply (decoded_cons _ (Str "b") [[]]); [reflexivity|].
      apply decoded_nil.
    + reflexivity.
  - apply (proj1 (proj2 (proj2 (array_decoding
                    [B "2" ++ END_OF_FIELD ++ B "+a" ++ END_OF_FIELD]
                    (B "2" ++ END_OF_FIELD)
                    [B "+a" ++ END_OF_FIELD] 2 eq_refl eq_refl)))
             [Str "a"] [[]]).
    + apply (decoded_cons _ (Str "a") [[]]); [reflexivity|].
      apply decoded_nil.
    + simpl. lia.
    + reflexivity.
Defined.

(** C5, as stated, fails: the stream [*2\r\n+a\r\n+b] ends inside the array,
    before the terminator of its second element, and the array is decoded,
    with its two elements. *)
Lemma array_cut_short_is_decoded :
  read_array [B "2" ++ END_OF_FIELD ++ B "+a" ++ END_OF_FIELD ++ B "+b"]
    = Ok ([Str "a"; Str "b"], []) /\
  read_data [B "*2" ++ END_OF_FIELD ++ B "+a" ++ END_OF_FIELD ++ B "+b"]
    = Ok (Lst [Str "a"; Str "b"], []).
Proof. split; reflexivity. Qed.

Lemma read_items_by_decoded rd n : forall items r vs r',
  decoded_by rd r vs r' -> length vs = n ->
  read_items rd n items r = Ok (items ++ vs, r').
Proof.
  induction n as [|n IH]; intros items r vs r' D L.
  - destruct vs; [|discriminate]. inversion D; subst. simpl.
    now rewrite app_nil_r.
  - destruct vs as [|v vs]; [discriminate|]. inversion D; subst.
    cbn [read_items]. rewrite H2. cbn [bind].
    rewrite (IH _ _ vs r'); auto. now rewrite <- app_assoc.
Qed.

Lemma read_items_by_Ok rd n : forall items r l r',
  read_items rd n items r = Ok (l, r') ->
  exists vs, l = items ++ vs /\ length vs = n /\ decoded_by rd r vs r'.
Proof.
  induction n as [|n IH]; intros items r l r'; cbn [read_items].
  - intros [= <- <-]. exists []. rewrite app_nil_r. auto using decoded_by_nil.
  - destruct (rd r) as [[v r1]|] eqn:E; [|discriminate]. cbn [bind].
    intros H. destruct (IH _ _ _ _ H) as (vs & -> & L & D).
    exists (v :: vs). rewrite <- app_assoc. simpl.
    eauto using decoded_by_cons.
Qed.

Lemma read_items_by_Raise rd n : forall items r vs rk e,
  decoded_by rd r vs rk -> length vs < n -> rd rk = Raise e ->
  read_items rd n items r = Raise e.
Proof.
  induction n as [|n IH]; intros items r vs rk e D L E; [lia|].
  cbn [read_items]. inversion D; subst.
  - now rewrite E.
  - rewrite H. cbn [bind]. apply (IH _ _ vs0 rk); auto. simpl in L. lia.
Qed.

(** The same holds at every depth allowed to [read_data]: with the values
    decoded as [read_array] decodes them at this depth, the array has these
    values, a value that fails makes the array fail, and no array is
    returned with fewer values than its count. *)
Lemma array_decoding_at_depth depth r field r1 (N : nat) :
  read_next_field r = (field, r1) -> int_field field = Ok (Z.of_nat N) ->
  let rd := read_data_depth depth in
  (forall vs r2,
     decoded_by rd r1 vs r2 -> length vs = N ->
     read_array_with rd r = Ok (vs, r2)) /\
  (forall vs rk e,
     decoded_by rd r1 vs rk -> length vs < N -> rd rk = Raise e ->
     read_array_with rd r = Raise e) /\
  (forall l r2,
     read_array_with rd r = Ok (l, r2) ->
     length l = N /\ decoded_by rd r1 l r2).
Proof.
  intros F I rd.
  assert (U : read_array_with rd r = read_items rd N [] r1).
  { unfold read_array_with. rewrite F. unfold int_field in I.
    destruct (decode_strip field) as [s|]; [|discriminate]. cbn [bind] in *.
    rewrite I. cbn [bind]. now rewrite Nat2Z.id. }
  rewrite U. split; [|split].
  - intros vs r2 D L. now rewrite (read_items_by_decoded rd N [] r1 vs r2 D L).
  - intros vs rk e D L E. exact (read_items_by_Raise rd N [] r1 vs rk e D L E).
  - intros l r2 H.
    destruct (read_items_by_Ok rd N [] r1 l r2 H) as (vs & -> & L & D). auto.
Qed.

(** C6.  [ECHO], in any case of its letters, with texts as arguments, as
    decoded from the stream or any ASCII texts: the reply is the bulk string
    of the texts joined by single spaces,
    [$<byte length>\r\n<a1 a2 ...>\r\n]. *)
Theorem echo_reply :
  (forall name texts w,
     upper name = "ECHO" -> forallb is_ascii_str texts = true ->
     let joined := String.concat " " texts in
     handle_request (Lst (Str name :: map Str texts)) w
     = Ok (w ++ B "$" ++ B (str_of_nat (length (B joined))) ++ END_OF_FIELD
             ++ B joined ++ END_OF_FIELD)) /\
  (forall r r' name texts w,
     read_data r = Ok (Lst (Str name :: map Str texts), r') ->
     upper name = "ECHO" ->
     let joined := String.concat " " texts in
     handle_request (Lst (Str name :: map Str texts)) w
     = Ok (w ++ B "$" ++ B (str_of_nat (length (B joined))) ++ END_OF_FIELD
             ++ B joined ++ END_OF_FIELD)) /\
  handle_request (Lst [Str "ECHO"; Str "hello"; Str "world"]) []
    = Ok (B "$11" ++ END_OF_FIELD ++ B "hello world" ++ END_OF_FIELD) /\
  handle_request (Lst [Str "ECHO"]) [] = Ok (B "$0" ++ END_OF_FIELD ++ END_OF_FIELD).
Proof.
  assert (G : forall name texts w,
     upper name = "ECHO" -> forallb is_ascii_str texts = true ->
     let joined := String.concat " " texts in
     handle_request (Lst (Str name :: map Str texts)) w
     = Ok (w ++ B "$" ++ B (str_of_nat (length (B joined))) ++ END_OF_FIELD
             ++ B joined ++ END_OF_FIELD)).
  { intros name texts w U A joined.
    rewrite (proj1 (handle_request_ECHO name (map Str texts) w U)).
    unfold handle_echo. rewrite (make_bulk_string_texts texts A). reflexivity. }
  split; [exact G|]. split; [|split; reflexivity].
  intros r r' name texts w D U. apply (G name texts w U).
  apply read_data_ascii in D. cbn [ascii_value forallb] in D.
  apply andb_true_iff in D as [_ D]. now rewrite ascii_value_texts in D.
Qed.

Lemma echo_reply_witness :
  handle_request (Lst [Str "Echo"; Str "hello"; Str "world"]) (B "+PONG")
  = Ok (B "+PONG" ++ B "$11" ++ END_OF_FIELD ++ B "hello world" ++ END_OF_FIELD).
Proof.
  exact (proj1 echo_reply "Echo" ["hello"; "world"] (B "+PONG") eq_refl eq_refl).
Defined.

(** C7.  [PING], in any case of its letters, alone or as the first element
    of a list, with any arguments: the reply is [+PONG\r\n]. *)
Theorem ping_reply name args w :
  upper name = "PING" ->
  handle_request (Lst (Str name :: args)) w = Ok (w ++ B "+PONG" ++ END_OF_FIELD)
  /\ handle_request (Str name) w = Ok (w ++ B "+PONG" ++ END_OF_FIELD).
Proof. apply handle_request_PING. Qed.

Lemma ping_reply_witness :
  handle_request (Lst [Str "ping"; Str "hello"; Lst []]) []
    = Ok (B "+PONG" ++ END_OF_FIELD) /\
  handle_request (Str "ping") [] = Ok (B "+PONG" ++ END_OF_FIELD).
Proof. exact (ping_reply "ping" [Str "hello"; Lst []] [] eq_refl). Defined.

(** C8.  A command whose name is neither [PING] nor [ECHO], whatever the
    case of its letters: nothing is written, nothing is raised, and the loop
    goes on with the rest of the stream and the same writer. *)
Theorem unrecognized_command name args w command :
  upper name <> "PING" -> upper name <> "ECHO" ->
  command = Str name \/ command = Lst (Str name :: args) ->
  handle_request command w = Ok w /\
  (forall r r',
     read_data r = Ok (command, r') -> handle_command r w = handle_command r' w).
Proof.
  intros P E C.
  assert (H : handle_request command w = Ok w).
  { destruct (handle_request_other name args w P E) as [L S].
    now destruct C as [-> | ->]. }
  split; [exact H|].
  intros r r' D. now rewrite handle_command_unfold, D, H.
Qed.

Lemma unrecognized_command_witness :
  handle_request (Lst [Str "get"; Str "key"]) (B "+PONG") = Ok (B "+PONG") /\
  handle_command [B "*2" ++ END_OF_FIELD ++ B "+get" ++ END_OF_FIELD
                    ++ B "+key" ++ END_OF_FIELD; B "+ping" ++ END_OF_FIELD] []
  = handle_command [[]; B "+ping" ++ END_OF_FIELD] [].
Proof.
  destruct (unrecognized_command "get" [Str "key"] (B "+PONG")
              (Lst [Str "get"; Str "key"])) as [H _];
    [discriminate|discriminate|now right|].
  destruct (unrecognized_command "get" [Str "key"] []
              (Lst [Str "get"; Str "key"])) as [_ L];
    [discriminate|discriminate|now right|].
  split; [exact H|]. apply L. reflexivity.
Defined.

Lemma lstrip_whitespace t : whitespace t = true -> lstrip t = "".
Proof.
  induction t as [|c t IH]; [reflexivity|]. simpl. intros H.
  apply andb_true_iff in H as [C W]. now rewrite C, IH.
Qed.

(** White space after the text, as the terminator of a field is, goes with
    the white space at the end of the text. *)
Lemma strip_append_whitespace s t :
  whitespace t = true -> rstrip (lstrip (s ++ t)) = rstrip (lstrip s).
Proof.
  intros W. induction s as [|c s IH].
  - simpl. now rewrite (lstrip_whitespace t W).
  - cbn [append lstrip]. destruct (isspace c); [exact IH|].
    apply (rstrip_append (String c s) t W).
Qed.

(** Decoding the wire form [+<content>\r\n] of a simple string. *)
Lemma read_data_simple_wire r content rest :
  pending r = B "+" ++ content ++ END_OF_FIELD ++ rest ->
  ~ In x0a content ->
  exists r',
    pending r' = rest /\
    read_data r = (s <- decode_strip (content ++ END_OF_FIELD) ;; Ok (Str s, r')).
Proof.
  intros P NL. change (B "+") with [x2b] in P. cbn [app] in P.
  destruct (read_type_marker r _ _ P) as (r0 & F0 & T).
  change (bytes_eqb [x2b] (B "*")) with false in T.
  change (bytes_eqb [x2b] (B "+")) with true in T. cbv iota in T.
  assert (P0 : pending r0 = content ++ END_OF_FIELD ++ rest).
  { destruct F0 as [E _]. rewrite P in E. now injection E as <-. }
  destruct (read_next_field_token r0 content rest P0 NL) as (r' & F & F1).
  exists r'. split.
  - destruct F1 as [E _]. rewrite P0, app_assoc in E.
    now apply app_inv_head in E.
  - rewrite read_data_unfold, T. cbn [bind]. unfold read_simple_string.
    rewrite F. now destruct (decode_strip (content ++ END_OF_FIELD)).
Qed.

(** C9.  The text decoded from a bulk string is its content without the
    white space at its two ends: the content is this text between two runs
    of white space, and the text neither starts nor ends with white space.
    The same holds of a simple string, and no text that [read_data] returns
    starts or ends with white space. *)
Theorem decoded_text_is_stripped :
  (forall r text r', read_data r = Ok (Str text, r') -> stripped text = true) /\
  (forall r content rest,
     pending r = bulk_wire content ++ rest ->
     forallb is_ascii_byte content = true ->
     boundary_at (length (bulk_wire content) - 1) r = false ->
     exists l text t r',
       read_data r = Ok (Str text, r') /\ pending r' = rest /\
       (string_of_list_byte content = l ++ text ++ t)%string /\
       whitespace l = true /\ whitespace t = true /\ stripped text = true) /\
  (forall r content rest,
     pending r = B "+" ++ content ++ END_OF_FIELD ++ rest ->
     forallb is_ascii_byte content = true -> ~ In x0a content ->
     exists l text t r',
       read_data r = Ok (Str text, r') /\ pending r' = rest /\
       (string_of_list_byte content = l ++ text ++ t)%string /\
       whitespace l = true /\ whitespace t = true /\ stripped text = true).
Proof.
  split; [exact read_data_stripped|].
  split; intros r content rest P A H.
  - destruct (read_data_bulk_wire r content rest P H)
      as (r1 & r' & _ & _ & P' & E).
    rewrite (decode_strip_ok _ A) in E. cbn [bind] in E.
    destruct (strip_spec (string_of_list_byte content)) as (l & t & S).
    exists l, (rstrip (lstrip (string_of_list_byte content))), t, r'. tauto.
  - destruct (read_data_simple_wire r content rest P H) as (r' & P' & E).
    rewrite decode_strip_ok in E
      by (rewrite forallb_app, A; reflexivity).
    cbn [bind] in E. rewrite string_of_list_byte_app in E.
    rewrite (strip_append_whitespace _ _ (eq_refl : whitespace CRLF = true)) in E.
    destruct (strip_spec (string_of_list_byte content)) as (l & t & S).
    exists l, (rstrip (lstrip (string_of_list_byte content))), t, r'. tauto.
Qed.

Lemma decoded_text_is_stripped_witness :
  (exists l text t r',
     read_data [B "$7" ++ END_OF_FIELD ++ B "  a b  " ++ END_OF_FIELD]
       = Ok (Str text, r') /\ pending r' = [] /\
     ("  a b  " = l ++ text ++ t)%string /\
     whitespace l = true /\ whitespace t = true /\ stripped text = true) /\
  (exists l text t r',
     read_data [B "+ OK " ++ END_OF_FIELD] = Ok (Str text, r') /\
     pending r' = [] /\
     (" OK " = l ++ text ++ t)%string /\
     whitespace l = true /\ whitespace t = true /\ stripped text = true).
Proof.
  split.
  - exact (proj1 (proj2 decoded_text_is_stripped)
             [B "$7" ++ END_OF_FIELD ++ B "  a b  " ++ END_OF_FIELD]
             (B "  a b  ") [] eq_refl eq_refl eq_refl).
  - apply (proj2 (proj2 decoded_text_is_stripped)
             [B "+ OK " ++ END_OF_FIELD] (B " OK ") [] eq_refl eq_refl).
    simpl. intros [H|[H|[H|[H|[]]]]]; discriminate.
Defined.

(** The texts of these two: [a b] and [OK]. *)
Lemma decoded_text_examples :
  read_data [B "$7" ++ END_OF_FIELD ++ B "  a b  " ++ END_OF_FIELD]
    = Ok (Str "a b", [[]]) /\
  read_data [B "+ OK " ++ END_OF_FIELD] = Ok (Str "OK", [[]]).
Proof. split; reflexivity. Qed.

(** C10.  The empty list has no first element to take for the command: the
    turn raises [ValueError], and the connection ends with what had been
    written before. *)
Theorem empty_list_raises w :
  handle_request (Lst []) w = Raise ValueError_unpack /\
  (forall r r',
     read_data r = Ok (Lst [], r') ->
     handle_command r w = Some (Raised ValueError_unpack w)).
Proof.
  split; [reflexivity|].
  intros r r' D. now rewrite handle_command_unfold, D.
Qed.

Lemma empty_list_raises_witness :
  handle_command [B "*0" ++ END_OF_FIELD] []
  = Some (Raised ValueError_unpack []).
Proof.
  apply (proj2 (empty_list_raises []) [B "*0" ++ END_OF_FIELD] [[]]).
  reflexivity.
Defined.


(** ** Further properties of the field reader and of the markers *)

(** The field reader returns the shortest prefix of the pending bytes that
    ends with the terminator, terminator included; when no prefix does, it
    returns all of them and leaves the stream at its end.  No byte is lost:
    the field and what stays pending are what was pending. *)
Theorem field_reader_first_terminator r :
  exists field r',
    read_next_field r = (field, r') /\
    pending r = field ++ pending r' /\
    ((exists p, field = p ++ END_OF_FIELD) \/ pending r' = []) /\
    (forall p q, field = p ++ END_OF_FIELD ++ q -> q = []).
Proof.
  destruct (read_next_field_loop_first (S (length (pending r))) [] r)
    as (field & r' & L & [P _] & X & M); [lia|].
  exists field, r'. cbn [app] in *. split; [exact L|]. split; [exact P|]. split.
  - destruct X as [X|X]; [left; now apply endswith_suffix|now right].
  - intros p q E. destruct q as [|x q]; [reflexivity|exfalso].
    rewrite app_assoc in E.
    assert (Q : x :: q <> []) by discriminate.
    pose proof (M _ _ E Q) as H. now rewrite endswith_app in H.
Qed.

(** The marker table of [read_type]: [*], [+] and [$] select the three
    types and take one byte from the stream; any other byte, and the end of
    the stream, raise the exception that carries what was read, and the
    connection ends there with nothing more written. *)
Theorem read_type_table r w :
  (pending r = [] ->
   read_type r = Raise (UndefinedRedixType []) /\
   handle_command r w = Some (Raised (UndefinedRedixType []) w)) /\
  (forall b rest, pending r = b :: rest ->
   exists r', pending r' = rest /\
     (b = x2a -> read_type r = Ok (LIST, r')) /\
     (b = x2b -> read_type r = Ok (SimpleString, r')) /\
     (b = x24 -> read_type r = Ok (BulkString, r')) /\
     (b <> x2a -> b <> x2b -> b <> x24 ->
      read_type r = Raise (UndefinedRedixType [b]) /\
      handle_command r w = Some (Raised (UndefinedRedixType [b]) w))).
Proof.
  split.
  - intros E. split; [now apply read_type_eof|].
    now rewrite handle_command_unfold, (read_data_eof r E).
  - intros b rest P. destruct (read_type_marker r b rest P) as (r' & [E _] & T).
    exists r'. split.
    { rewrite P in E. now injection E. }
    split; [intros ->; exact T|]. split; [intros ->; exact T|].
    split; [intros ->; exact T|]. intros N1 N2 N3.
    assert (U : read_type r = Raise (UndefinedRedixType [b])).
    { rewrite T. destruct b; try reflexivity; congruence. }
    split; [exact U|].
    now rewrite handle_command_unfold, read_data_unfold, U.
Qed.

Lemma read_type_table_witness :
  read_type [B "-ERR"] = Raise (UndefinedRedixType (B "-")) /\
  handle_command [B "-ERR"] (B "+PONG")
  = Some (Raised (UndefinedRedixType (B "-")) (B "+PONG")).
Proof.
  destruct (proj2 (read_type_table [B "-ERR"] (B "+PONG")) x2d (B "ERR") eq_refl)
    as (r' & _ & _ & _ & _ & H).
  apply H; discriminate.
Defined.

(** ** Further properties of the decoder *)

Lemma read_next_field_prefix r field r' :
  read_next_field r = (field, r') -> pending r = field ++ pending r'.
Proof.
  destruct (read_next_field_exit r) as (f & r1 & E & [P _] & _).
  rewrite E. now intros [= <- <-].
Qed.

Lemma read_simple_string_prefix r s r' :
  read_simple_string r = Ok (s, r') -> exists pre, pending r = pre ++ pending r'.
Proof.
  unfold read_simple_string.
  destruct (read_next_field r) as [field r1] eqn:F.
  destruct (decode_strip field); [|discriminate]. cbn [bind].
  intros [= _ <-]. exists field. now apply read_next_field_prefix.
Qed.

Lemma read_bulk_string_prefix r s r' :
  read_bulk_string r = Ok (s, r') -> exists pre, pending r = pre ++ pending r'.
Proof.
  rewrite read_bulk_string_unfold.
  destruct (read_next_field r) as [field r1] eqn:F.
  destruct (int_field field) as [n|]; [|discriminate]. cbn [bind].
  destruct (read_each_follows (Z.to_nat n) [] r1) as (pre & r2 & E & P).
  rewrite E. destruct (read 2 r2) as [eof r3] eqn:R.
  destruct (bytes_eqb eof END_OF_FIELD); [|discriminate].
  destruct (decode_strip ([] ++ pre)); [|discriminate].
  intros [= _ <-]. exists (field ++ pre ++ eof).
  rewrite (read_next_field_prefix _ _ _ F), P, (read_pending _ _ _ _ R).
  now rewrite <- !app_assoc.
Qed.

Lemma read_items_prefix rd :
  (forall r v r', rd r = Ok (v, r') -> exists pre, pending r = pre ++ pending r') ->
  forall n items r l r',
    read_items rd n items r = Ok (l, r') ->
    exists pre, pending r = pre ++ pending r'.
Proof.
  intros Hrd. induction n as [|n IH]; intros items r l r'; cbn [read_items].
  - intros [= _ <-]. now exists [].
  - destruct (rd r) as [[v r1]|] eqn:E; [|discriminate]. cbn [bind].
    intros H. destruct (Hrd _ _ _ E) as (p1 & P1).
    destruct (IH _ _ _ _ H) as (p2 & P2).
    exists (p1 ++ p2). now rewrite P1, P2, app_assoc.
Qed.

Lemma read_data_depth_prefix depth : forall r v r',
  read_data_depth depth r = Ok (v, r') ->
  exists pre, pending r = pre ++ pending r'.
Proof.
  induction depth as [|depth IH]; intros r v r'; [discriminate|].
  rewrite read_data_depth_S.
  destruct (read_type r) as [[dtype r1]|] eqn:T; [|discriminate]. cbn [bind].
  destruct (read_type_Ok _ _ _ T) as (b & [P _]).
  assert (G : (exists pre, pending r1 = pre ++ pending r') ->
              exists pre, pending r = pre ++ pending r').
  { intros (pre & E). exists ([b] ++ pre). now rewrite P, E, app_assoc. }
  destruct dtype.
  - destruct (read_simple_string r1) as [[s r2]|] eqn:E; [|discriminate].
    intros [= _ <-]. apply G. eapply read_simple_string_prefix, E.
  - destruct (read_bulk_string r1) as [[s r2]|] eqn:E; [|discriminate].
    intros [= _ <-]. apply G. eapply read_bulk_string_prefix, E.
  - unfold read_array_with.
    destruct (read_next_field r1) as [field r2] eqn:F.
    destruct (decode_strip field) as [s|]; [|discriminate]. cbn [bind].
    destruct (int s) as [n|]; [|discriminate]. cbn [bind].
    destruct (read_items (read_data_depth depth) (Z.to_nat n) [] r2)
      as [[l r3]|] eqn:E; [|discriminate].
    intros [= _ <-]. apply G.
    destruct (read_items_prefix _ IH _ _ _ _ _ E) as (pre & Q).
    exists (field ++ pre).
    now rewrite (read_next_field_prefix _ _ _ F), Q, app_assoc.
Qed.

(** A decoded value is taken off the front of the stream: what stays pending
    is what was pending without a prefix, and this prefix is not empty.  The
    decoder neither skips nor repeats a byte between two requests. *)
Theorem decoder_takes_a_prefix r v r' :
  read_data r = Ok (v, r') ->
  exists pre, pre <> [] /\ pending r = pre ++ pending r'.
Proof.
  intros D. destruct (read_data_depth_prefix _ _ _ _ D) as (pre & P).
  exists pre. split; [|exact P].
  apply read_data_shrinks in D. rewrite P, length_app in D.
  destruct pre; [simpl in D; lia|discriminate].
Qed.

Lemma decoder_takes_a_prefix_witness :
  exists pre, pre <> [] /\
    pending [B "+PING" ++ [x0d]; [x0a] ++ B "+PING" ++ END_OF_FIELD]
    = pre ++ pending [B "+PING" ++ END_OF_FIELD].
Proof.
  apply (decoder_takes_a_prefix _ (Str "PING")). reflexivity.
Defined.

Lemma read_items_all_texts P rd :
  (forall r v r', rd r = Ok (v, r') -> all_texts P v = true) ->
  forall n items r l r',
    forallb (all_texts P) items = true ->
    read_items rd n items r = Ok (l, r') -> forallb (all_texts P) l = true.
Proof.
  intros Hrd. induction n as [|n IH]; intros items r l r' A; cbn [read_items].
  - now intros [= <- _].
  - destruct (rd r) as [[v r1]|] eqn:E; [|discriminate]. cbn [bind].
    apply IH. rewrite forallb_app, A. simpl.
    now rewrite (Hrd _ _ _ E).
Qed.

Lemma read_data_depth_all_texts P :
  (forall bs s, decode_strip bs = Ok s -> P s = true) ->
  forall depth r v r',
    read_data_depth depth r = Ok (v, r') -> all_texts P v = true.
Proof.
  intros HP. induction depth as [|depth IH]; intros r v r'; [discriminate|].
  rewrite read_data_depth_S.
  destruct (read_type r) as [[[] r1]|]; cbn [bind]; try discriminate.
  - unfold read_simple_string. destruct (read_next_field r1) as [field r2].
    destruct (decode_strip field) as [t|] eqn:D; [|discriminate]. cbn [bind].
    intros [= <- _]. exact (HP _ _ D).
  - rewrite read_bulk_string_unfold. destruct (read_next_field r1) as [field r2].
    destruct (int_field field) as [n|]; [|discriminate]. cbn [bind].
    destruct (read_each (Z.to_nat n) [] r2) as [bytes_read r3].
    destruct (read 2 r3) as [eof r4].
    destruct (bytes_eqb eof END_OF_FIELD); [|discriminate].
    destruct (decode_strip bytes_read) as [t|] eqn:D; [|discriminate].
    cbn [bind]. intros [= <- _]. exact (HP _ _ D).
  - unfold read_array_with. destruct (read_next_field r1) as [field r2].
    destruct (decode_strip field) as [s|]; [|discriminate]. cbn [bind].
    destruct (int s) as [n|]; [|discriminate]. cbn [bind].
    destruct (read_items (read_data_depth depth) (Z.to_nat n) [] r2)
      as [[l r3]|] eqn:E; [|discriminate].
    intros [= <- _].
    exact (read_items_all_texts P _ IH _ [] _ _ _ (eq_refl true) E).
Qed.

(** Every text of a decoded value, at any depth of its lists, is ASCII and
    neither starts nor ends with white space. *)
Theorem decoded_texts_ascii_stripped r v r' :
  read_data r = Ok (v, r') ->
  all_texts (fun s => is_ascii_str s && stripped s) v = true.
Proof.
  apply read_data_depth_all_texts. intros bs s D.
  destruct (decode_strip_Ok _ _ D) as [S A]. now rewrite S, A.
Qed.

Lemma decoded_texts_ascii_stripped_witness :
  all_texts (fun s => is_ascii_str s && stripped s)
    (Lst [Str "a"; Lst [Str "b c"]]) = true.
Proof.
  apply (decoded_texts_ascii_stripped
           [B "*2" ++ END_OF_FIELD ++ B "+ a " ++ END_OF_FIELD
              ++ B "*1" ++ END_OF_FIELD ++ B "$5" ++ END_OF_FIELD
              ++ B " b c " ++ END_OF_FIELD] _ [[]]).
  reflexivity.
Defined.

Lemma read_each_firstn n : forall acc r,
  exists r',
    read_each n acc r = (acc ++ firstn n (pending r), r') /\
    pending r' = skipn n (pending r).
Proof.
  induction n as [|n IH]; intros acc r; cbn [read_each].
  - exists r. now rewrite app_nil_r.
  - destruct (pending r) as [|b rest] eqn:P.
    + rewrite (read_eof 0 r P).
      destruct (IH (acc ++ []) []) as (r' & E & P').
      exists r'. rewrite E. change (pending []) with (@nil byte) in *.
      rewrite firstn_nil, skipn_nil in *. now rewrite app_nil_r.
    + destruct (read_1_byte r b rest P) as (r1 & R & [P1 _]). rewrite R.
      rewrite P in P1. injection P1 as P1.
      destruct (IH (acc ++ [b]) r1) as (r' & E & P').
      exists r'. rewrite E, <- app_assoc. subst rest. split; [reflexivity|exact P'].
Qed.

(** The [assert] of [read_bulk_string]: when the bytes that follow the
    declared number of content bytes are not the terminator, because other
    bytes stand there or because the stream ends before, the decoding raises
    [AssertionError] with the content bytes that were read, and a connection
    that was reading this bulk string ends with nothing written for it. *)
Theorem bulk_string_bad_terminator r field r1 n :
  read_next_field r = (field, r1) -> int_field field = Ok n ->
  (forall rest, skipn (Z.to_nat n) (pending r1) <> END_OF_FIELD ++ rest) ->
  read_bulk_string r
    = Raise (AssertionError (firstn (Z.to_nat n) (pending r1))) /\
  (forall r0 w,
     read_type r0 = Ok (BulkString, r) ->
     handle_command r0 w
     = Some (Raised (AssertionError (firstn (Z.to_nat n) (pending r1))) w)).
Proof.
  intros F I H.
  assert (E : read_bulk_string r
              = Raise (AssertionError (firstn (Z.to_nat n) (pending r1)))).
  { rewrite read_bulk_string_unfold, F, I. cbn [bind].
    destruct (read_each_firstn (Z.to_nat n) [] r1) as (r2 & E & P).
    rewrite E. cbn [app]. destruct (read 2 r2) as [eof r3] eqn:R.
    destruct (bytes_eqb eof END_OF_FIELD) eqn:Q; [exfalso|reflexivity].
    apply bytes_eqb_eq in Q. subst eof. apply read_pending in R.
    apply (H (pending r3)). now rewrite <- P. }
  split; [exact E|].
  intros r0 w T. rewrite handle_command_unfold, read_data_unfold, T.
  cbn [bind]. now rewrite E.
Qed.

Lemma bulk_string_bad_terminator_witness :
  read_bulk_string [B "5" ++ END_OF_FIELD ++ B "helloXY" ++ END_OF_FIELD]
    = Raise (AssertionError (B "hello")) /\
  read_bulk_string [B "5" ++ END_OF_FIELD ++ B "hel"]
    = Raise (AssertionError (B "hel")) /\
  handle_command [B "$5" ++ END_OF_FIELD ++ B "hel"] (B "+PONG")
    = Some (Raised (AssertionError (B "hel")) (B "+PONG")).
Proof.
  split; [|split].
  - apply (bulk_string_bad_terminator
             [B "5" ++ END_OF_FIELD ++ B "helloXY" ++ END_OF_FIELD]
             (B "5" ++ END_OF_FIELD) [B "helloXY" ++ END_OF_FIELD] 5
             eq_refl eq_refl).
    intros rest. discriminate.
  - apply (bulk_string_bad_terminator
             [B "5" ++ END_OF_FIELD ++ B "hel"]
             (B "5" ++ END_OF_FIELD) [B "hel"] 5 eq_refl eq_refl).
    intros rest. discriminate.
  - apply (proj2 (bulk_string_bad_terminator
                    [B "5" ++ END_OF_FIELD ++ B "hel"]
                    (B "5" ++ END_OF_FIELD) [B "hel"] 5 eq_refl eq_refl
                    (fun rest => @nil_cons _ _ _))).
    reflexivity.
Defined.

(** A simple string that the end of the stream cuts short, before any
    terminator, is decoded from the bytes that came, stripped as any other,
    and leaves the stream at its end. *)
Theorem simple_string_cut_short r :
  ~ In x0a (pending r) -> forallb is_ascii_byte (pending r) = true ->
  exists r',
    read_simple_string r
      = Ok (rstrip (lstrip (string_of_list_byte (pending r))), r') /\
    pending r' = [].
Proof.
  intros NL A. destruct (read_next_field_no_terminator r NL) as (r' & F & P).
  exists r'. split; [|exact P].
  unfold read_simple_string. now rewrite F, (decode_strip_ok _ A).
Qed.

Lemma simple_string_cut_short_witness :
  exists r',
    read_simple_string [B "PI"; B "NG "]
      = Ok (rstrip (lstrip (string_of_list_byte (B "PING "))), r') /\
    pending r' = [].
Proof.
  apply (simple_string_cut_short [B "PI"; B "NG "]).
  - simpl. intros [H|[H|[H|[H|[H|[]]]]]]; discriminate.
  - reflexivity.
Defined.

(** A count that is zero or negative gives the empty list: [range] of it is
    empty, and nothing after the count field is taken from the stream.  A
    connection that reads such an array as a request ends on it with the
    [ValueError] of the empty list, and nothing written for it. *)
Theorem array_count_not_positive r field r1 n :
  read_next_field r = (field, r1) -> int_field field = Ok n -> (n <= 0)%Z ->
  read_array r = Ok ([], r1) /\
  (forall r0 w,
     read_type r0 = Ok (LIST, r) ->
     handle_command r0 w = Some (Raised ValueError_unpack w)).
Proof.
  intros F I Hn.
  assert (E : read_array r = Ok ([], r1)).
  { rewrite read_array_unfold, F, I. cbn [bind].
    now replace (Z.to_nat n) with 0 by lia. }
  split; [exact E|].
  intros r0 w T. rewrite handle_command_unfold, read_data_unfold, T.
  cbn [bind]. now rewrite E.
Qed.

Lemma array_count_not_positive_witness :
  read_array [B "-3" ++ END_OF_FIELD ++ B "+PING" ++ END_OF_FIELD]
    = Ok ([], [B "+PING" ++ END_OF_FIELD]) /\
  handle_command [B "*-3" ++ END_OF_FIELD ++ B "+PING" ++ END_OF_FIELD] (B "+OK")
    = Some (Raised ValueError_unpack (B "+OK")).
Proof.
  destruct (array_count_not_positive
              [B "-3" ++ END_OF_FIELD ++ B "+PING" ++ END_OF_FIELD]
              (B "-3" ++ END_OF_FIELD) [B "+PING" ++ END_OF_FIELD] (-3)%Z
              eq_refl eq_refl) as [E H]; [lia|].
  split; [exact E|]. apply H. reflexivity.
Defined.

(** The reply of [ECHO] read back: the bytes [make_bulk_string] makes of
    ASCII texts, given to the decoder as one feed, are decoded to the joined
    text without the white space at its ends, and to the joined text itself
    when it has none there. *)
Theorem reply_decodes_back texts :
  forallb is_ascii_str texts = true ->
  exists reply r',
    make_bulk_string (map Str texts) = Ok reply /\
    read_data [reply]
      = Ok (Str (rstrip (lstrip (String.concat " " texts))), r') /\
    pending r' = [] /\
    (stripped (String.concat " " texts) = true ->
     read_data [reply] = Ok (Str (String.concat " " texts), r')).
Proof.
  intros A. set (joined := String.concat " " texts).
  assert (J : is_ascii_str joined = true)
    by (apply is_ascii_str_concat; [reflexivity|exact A]).
  destruct (read_data_bulk_wire [bulk_wire (B joined)] (B joined) [])
    as (r1 & r' & _ & _ & P' & E).
  { unfold pending. simpl. now rewrite !app_nil_r. }
  { apply boundary_at_one_feed. unfold bulk_wire.
    rewrite !length_app. simpl. lia. }
  rewrite decode_strip_ok in E by (now rewrite is_ascii_str_B).
  cbn [bind] in E. rewrite string_of_list_byte_B in E.
  exists (bulk_wire (B joined)), r'.
  split; [exact (make_bulk_string_texts texts A)|].
  split; [exact E|]. split; [exact P'|].
  intros S. rewrite E. now rewrite (strip_id _ S).
Qed.

Lemma reply_decodes_back_witness :
  exists reply r',
    make_bulk_string (map Str ["hello"; "world "]) = Ok reply /\
    read_data [reply]
      = Ok (Str (rstrip (lstrip (String.concat " " ["hello"; "world "]))), r') /\
    pending r' = [] /\
    (stripped (String.concat " " ["hello"; "world "]) = true ->
     read_data [reply] = Ok (Str (String.concat " " ["hello"; "world "]), r')).
Proof. exact (reply_decodes_back ["hello"; "world "] eq_refl). Defined.

(** ** Further properties of the dispatch and of the loop *)

Ltac upper_char_cases c :=
  destruct c as [[] [] [] [] [] [] [] []]; intros H;
  try discriminate H; auto.

Lemma upper_char_P c : upper_char c = "P"%char -> c = "P"%char \/ c = "p"%char.
Proof. upper_char_cases c. Qed.
Lemma upper_char_I c : upper_char c = "I"%char -> c = "I"%char \/ c = "i"%char.
Proof. upper_char_cases c. Qed.
Lemma upper_char_N c : upper_char c = "N"%char -> c = "N"%char \/ c = "n"%char.
Proof. upper_char_cases c. Qed.
Lemma upper_char_G c : upper_char c = "G"%char -> c = "G"%char \/ c = "g"%char.
Proof. upper_char_cases c. Qed.
Lemma upper_char_E c : upper_char c = "E"%char -> c = "E"%char \/ c = "e"%char.
Proof. upper_char_cases c. Qed.
Lemma upper_char_C c : upper_char c = "C"%char -> c = "C"%char \/ c = "c"%char.
Proof. upper_char_cases c. Qed.
Lemma upper_char_H c : upper_char c = "H"%char -> c = "H"%char \/ c = "h"%char.
Proof. upper_char_cases c. Qed.
Lemma upper_char_O c : upper_char c = "O"%char -> c = "O"%char \/ c = "o"%char.
Proof. upper_char_cases c. Qed.

Lemma upper_PING name :
  upper name = "PING" <->
  exists c1 c2 c3 c4,
    name = String c1 (String c2 (String c3 (String c4 ""))) /\
    (c1 = "P" \/ c1 = "p")%char /\ (c2 = "I" \/ c2 = "i")%char /\
    (c3 = "N" \/ c3 = "n")%char /\ (c4 = "G" \/ c4 = "g")%char.
Proof.
  split.
  - destruct name as [|c1 [|c2 [|c3 [|c4 [|c5 name]]]]]; cbn [upper];
      try discriminate.
    intros [= H1 H2 H3 H4]. exists c1, c2, c3, c4.
    repeat split;
      auto using upper_char_P, upper_char_I, upper_char_N, upper_char_G.
  - intros (c1 & c2 & c3 & c4 & -> & [-> | ->] & [-> | ->] & [-> | ->]
            & [-> | ->]); reflexivity.
Qed.

Lemma upper_ECHO name :
  upper name = "ECHO" <->
  exists c1 c2 c3 c4,
    name = String c1 (String c2 (String c3 (String c4 ""))) /\
    (c1 = "E" \/ c1 = "e")%char /\ (c2 = "C" \/ c2 = "c")%char /\
    (c3 = "H" \/ c3 = "h")%char /\ (c4 = "O" \/ c4 = "o")%char.
Proof.
  split.
  - destruct name as [|c1 [|c2 [|c3 [|c4 [|c5 name]]]]]; cbn [upper];
      try discriminate.
    intros [= H1 H2 H3 H4]. exists c1, c2, c3, c4.
    repeat split;
      auto using upper_char_E, upper_char_C, upper_char_H, upper_char_O.
  - intros (c1 & c2 & c3 & c4 & -> & [-> | ->] & [-> | ->] & [-> | ->]
            & [-> | ->]); reflexivity.
Qed.

Lemma handle_request_name name w :
  handle_request (Str name) w =
  if String.eqb (upper name) "PING" then Ok (w ++ B "+PONG" ++ END_OF_FIELD)
  else if String.eqb (upper name) "ECHO"
       then Ok (w ++ B "$0" ++ END_OF_FIELD ++ END_OF_FIELD)
       else Ok w.
Proof. reflexivity. Qed.

(** The names that are answered.  A command alone is answered [+PONG\r\n]
    exactly when its name is [PING] with each letter in either case, and
    answered with the empty bulk string exactly when its name is [ECHO] with
    each letter in either case. *)
Theorem answered_names name w :
  (handle_request (Str name) w = Ok (w ++ B "+PONG" ++ END_OF_FIELD) <->
   exists c1 c2 c3 c4,
     name = String c1 (String c2 (String c3 (String c4 ""))) /\
     (c1 = "P" \/ c1 = "p")%char /\ (c2 = "I" \/ c2 = "i")%char /\
     (c3 = "N" \/ c3 = "n")%char /\ (c4 = "G" \/ c4 = "g")%char) /\
  (handle_request (Str name) w
     = Ok (w ++ B "$0" ++ END_OF_FIELD ++ END_OF_FIELD) <->
   exists c1 c2 c3 c4,
     name = String c1 (String c2 (String c3 (String c4 ""))) /\
     (c1 = "E" \/ c1 = "e")%char /\ (c2 = "C" \/ c2 = "c")%char /\
     (c3 = "H" \/ c3 = "h")%char /\ (c4 = "O" \/ c4 = "o")%char).
Proof.
  rewrite <- upper_PING, <- upper_ECHO, handle_request_name.
  assert (N : forall out : bytes, out <> [] -> Ok w <> Ok (w ++ out)).
  { intros out NE [= H]. rewrite <- (app_nil_r w) in H at 1.
    apply app_inv_head in H. congruence. }
  assert (D : forall a b : bytes, a <> b -> Ok (w ++ a) <> Ok (w ++ b)).
  { intros a b NE [= H]. now apply app_inv_head in H. }
  destruct (String.eqb_spec (upper name) "PING") as [P|P];
    [|destruct (String.eqb_spec (upper name) "ECHO") as [E|E]].
  - rewrite P. split; split; intros H; try reflexivity; try discriminate H.
    exfalso. revert H. apply D. discriminate.
  - rewrite E. split; split; intros H; try reflexivity; try discriminate H.
    exfalso. revert H. apply D. discriminate.
  - split; split; intros H; try contradiction; exfalso;
      revert H; apply N; discriminate.
Qed.

Lemma handle_command_loop_frame turns : forall r w0 w e out,
  handle_command_loop turns r w = Some (Raised e out) ->
  handle_command_loop turns r (w0 ++ w) = Some (Raised e (w0 ++ out)).
Proof.
  induction turns as [|turns IH]; intros r w0 w e out; [discriminate|].
  cbn [handle_command_loop].
  destruct (read_data r) as [[command r']|e'].
  - rewrite (handle_request_frame command w),
            (handle_request_frame command (w0 ++ w)).
    destruct (handle_request command []) as [reply|e''].
    + rewrite <- app_assoc. apply IH.
    + now intros [= <- <-].
  - now intros [= <- <-].
Qed.

(** A connection only adds to what it has written, and what it adds depends
    on the stream alone: started with a writer that holds [w], it ends with
    the same exception as when started with an empty one, and with [w]
    followed by the same bytes. *)
Theorem connection_output_frame r w :
  exists e out,
    handle_command r [] = Some (Raised e out) /\
    handle_command r w = Some (Raised e (w ++ out)).
Proof.
  destruct (handle_command_raises r []) as (e & out & H).
  exists e, out. split; [exact H|].
  rewrite <- (app_nil_r w) at 1.
  now apply handle_command_loop_frame.
Qed.

(** The replies come in the order of the requests: when the stream gives the
    values [vs] one after the other, and each has its reply, the connection
    goes on from there with all these replies written, first to last. *)
Theorem replies_in_order r vs r' outs w :
  decoded_in_order r vs r' ->
  Forall2 (fun v out => handle_request v [] = Ok out) vs outs ->
  handle_command r w = handle_command r' (w ++ concat outs).
Proof.
  intros D. revert outs w.
  induction D as [r|r v r1 vs r2 E D IH]; intros outs w F; inversion F; subst.
  - simpl. now rewrite app_nil_r.
  - rewrite handle_command_unfold, E, (handle_request_frame v w), H1.
    cbn [concat]. rewrite app_assoc. now apply IH.
Qed.

Lemma replies_in_order_witness :
  handle_command [B "+ping" ++ END_OF_FIELD ++ B "*2" ++ END_OF_FIELD;
                  B "+echo" ++ END_OF_FIELD ++ B "+hi" ++ END_OF_FIELD] []
  = handle_command [[]]
      ([] ++ concat [B "+PONG" ++ END_OF_FIELD;
                     B "$2" ++ END_OF_FIELD ++ B "hi" ++ END_OF_FIELD]).
Proof.
  apply (replies_in_order _ [Str "ping"; Lst [Str "echo"; Str "hi"]]).
  - apply (decoded_cons _ _ [B "*2" ++ END_OF_FIELD;
                             B "+echo" ++ END_OF_FIELD ++ B "+hi" ++ END_OF_FIELD]);
      [reflexivity|].
    apply (decoded_cons _ _ [[]]); [reflexivity|]. apply decoded_nil.
  - repeat constructor.
Defined.

Lemma join_from_at sep : forall args k index items,
  nth_error args k = Some (Lst items) ->
  forallb is_text (firstn k args) = true ->
  join_from index sep args = Raise (TypeError_join (index + k)).
Proof.
  induction args as [|[s|l] rest IH]; intros k index items N T.
  - now destruct k.
  - destruct k as [|k]; [discriminate|]. cbn [nth_error firstn forallb] in N, T.
    cbn [join_from]. rewrite (IH k (S index) items N T). cbn [bind].
    destruct rest; [now destruct k|]. f_equal. f_equal. lia.
  - destruct k as [|k]; [|discriminate].
    cbn [join_from]. now rewrite Nat.add_0_r.
Qed.

Lemma all_text_map args :
  forallb is_text args = true -> exists texts, args = map Str texts.
Proof.
  induction args as [|[s|l] rest IH]; intros H.
  - now exists [].
  - destruct (IH H) as (texts & ->). now exists (s :: texts).
  - discriminate.
Qed.

(** When a turn raises.  For a value decoded from the stream, the turn
    raises in three cases and in no other: the empty list ([ValueError] of
    the unpacking), a list whose first element is a list ([AttributeError]
    of [upper]), and [ECHO] with an argument that is a list ([TypeError] of
    the join, at the first such argument). *)
Theorem turn_raises_exactly r v r' w e :
  read_data r = Ok (v, r') ->
  (handle_request v w = Raise e <->
   (v = Lst [] /\ e = ValueError_unpack) \/
   (exists items rest, v = Lst (Lst items :: rest) /\ e = AttributeError_upper) \/
   (exists name args k items,
      v = Lst (Str name :: args) /\ upper name = "ECHO" /\
      nth_error args k = Some (Lst items) /\
      forallb is_text (firstn k args) = true /\ e = TypeError_join k)).
Proof.
  intros D. apply read_data_ascii in D. split.
  - destruct v as [name|[|[name|items] args]].
    + rewrite handle_request_name.
      destruct (String.eqb (upper name) "PING"); [discriminate|].
      destruct (String.eqb (upper name) "ECHO"); discriminate.
    + intros [= <-]. now left.
    + destruct (String.eqb_spec (upper name) "PING") as [P|P].
      { now rewrite (proj1 (handle_request_PING name args w P)). }
      destruct (String.eqb_spec (upper name) "ECHO") as [E|E].
      2:{ now rewrite (proj1 (handle_request_other name args w P E)). }
      rewrite (proj1 (handle_request_ECHO name args w E)).
      destruct (forallb is_text args) eqn:T.
      * destruct (all_text_map args T) as (texts & ->).
        cbn [ascii_value forallb] in D. apply andb_true_iff in D as [_ D].
        rewrite ascii_value_texts in D. unfold handle_echo.
        now rewrite (make_bulk_string_texts texts D).
      * destruct (join_from_not_text " " args 0 T) as (k & items & N & F & J).
        unfold handle_echo, make_bulk_string, join. rewrite J.
        intros [= <-]. right. right. now exists name, args, k, items.
    + intros [= <-]. right. left. now exists items, args.
  - intros [[-> ->]|[(items & rest & -> & ->)|
                     (name & args & k & items & -> & E & N & F & ->)]];
      try reflexivity.
    rewrite (proj1 (handle_request_ECHO name args w E)).
    unfold handle_echo, make_bulk_string, join.
    now rewrite (join_from_at " " args k 0 items N F).
Qed.

Lemma turn_raises_exactly_witness :
  handle_request (Lst [Lst []; Str "PING"]) [] = Raise AttributeError_upper.
Proof.
  apply (proj2 (turn_raises_exactly
                  [B "*2" ++ END_OF_FIELD ++ B "*0" ++ END_OF_FIELD
                     ++ B "+PING" ++ END_OF_FIELD]
                  (Lst [Lst []; Str "PING"]) [[]] [] AttributeError_upper
                  eq_refl)).
  right. left. now exists [], [Str "PING"].
Defined.

(** ** A request from the wire to the reply *)

Lemma read_2_bytes_follows r a b rest :
  pending r = a :: b :: rest -> boundary_at 1 r = false ->
  exists r', read 2 r = ([a; b], r') /\ follows [a; b] r r'.
Proof.
  intros E Hb. unfold read.
  rewrite <- boundary_wait_for_data in Hb.
  assert (P : pending r = pending (wait_for_data r))
    by (now rewrite pending_wait_for_data).
  assert (Bw : forall j, boundary_at (S j) (wait_for_data r) = boundary_at (S j) r)
    by (intros j; apply boundary_wait_for_data).
  rewrite P in E.
  destruct (wait_for_data r) as [|buffer incoming] eqn:W; [discriminate|].
  pose proof (wait_for_data_head _ _ _ W) as NE.
  destruct buffer as [|x [|y buffer]]; [congruence|discriminate|].
  unfold pending in E. simpl in E. injection E as -> -> <-.
  eexists. split; [reflexivity|]. split.
  - rewrite P. reflexivity.
  - intros j. cbn [length]. replace (S j + 2) with (S (S (S j))) by lia.
    rewrite <- Bw. reflexivity.
Qed.

Lemma read_next_field_follows r field r1 :
  read_next_field r = (field, r1) -> follows field r r1.
Proof.
  destruct (read_next_field_exit r) as (f & r' & E & F & _).
  rewrite E. now intros [= <- <-].
Qed.

Lemma read_data_bulk_wire_follows r content rest :
  pending r = bulk_wire content ++ rest ->
  boundary_at (length (bulk_wire content) - 1) r = false ->
  exists r',
    follows (bulk_wire content) r r' /\
    read_data r = (s <- decode_strip content ;; Ok (Str s, r')).
Proof.
  intros P Bd. unfold bulk_wire in P |- *.
  set (tok := B (str_of_nat (length content))) in *.
  change (B "$") with [x24] in *. cbn [app] in P.
  destruct (read_type_marker r _ _ P) as (r0 & F0 & T).
  change (bytes_eqb [x24] (B "*")) with false in T.
  change (bytes_eqb [x24] (B "+")) with false in T.
  change (bytes_eqb [x24] (B "$")) with true in T. cbv iota in T.
  assert (P0 : pending r0 =
               tok ++ END_OF_FIELD ++ (content ++ END_OF_FIELD ++ rest)).
  { destruct F0 as [E _]. rewrite P in E. injection E as <-.
    rewrite <- app_assoc. simpl. now rewrite <- app_assoc. }
  destruct (read_next_field_token r0 tok _ P0) as (r1 & F & F1).
  { apply digits_no_line_feed, str_of_nat_digits. }
  assert (P1 : pending r1 = content ++ END_OF_FIELD ++ rest).
  { destruct F1 as [E _]. rewrite P0, app_assoc in E.
    now apply app_inv_head in E. }
  destruct (read_each_content content [] r1 _ P1) as (r2 & E2 & F2).
  assert (P2 : pending r2 = x0d :: x0a :: rest).
  { destruct F2 as [P' _]. rewrite P1 in P'. now apply app_inv_head in P'. }
  pose proof (follows_trans _ _ _ _ _ F0 (follows_trans _ _ _ _ _ F1 F2)) as F02.
  destruct (read_2_bytes_follows r2 _ _ _ P2) as (r3 & R & F3).
  { rewrite (follows_boundary _ _ _ 0 F02), <- Bd. f_equal.
    unfold bulk_wire. fold tok. change (B "$") with [x24].
    rewrite !length_app. simpl. lia. }
  exists r3. split.
  - pose proof (follows_trans _ _ _ _ _ F02 F3) as G.
    rewrite <- !app_assoc in G. exact G.
  - subst tok. rewrite read_data_unfold, T. cbn [bind].
    rewrite read_bulk_string_unfold, F, int_field_str_of_nat. cbn [bind].
    rewrite Nat2Z.id, E2, R. cbn [app bytes_eqb Byte.eqb andb].
    now destruct (decode_strip content).
Qed.

Lemma follows_one_feed pre buffer incoming r1 j :
  follows pre (buffer :: incoming) r1 -> S j + length pre < length buffer ->
  boundary_at (S j) r1 = false.
Proof.
  intros F H. rewrite (follows_boundary _ _ _ _ F).
  now apply boundary_at_one_feed.
Qed.

Lemma upper_ECHO_text name :
  upper name = "ECHO" ->
  decode_strip (B name) = Ok name /\ length (B name) = 4.
Proof.
  intros H. apply upper_ECHO in H
    as (c1 & c2 & c3 & c4 & -> & [-> | ->] & [-> | ->] & [-> | ->] & [-> | ->]);
    split; reflexivity.
Qed.

Lemma bulk_wire_length content :
  length (bulk_wire content)
  = 5 + length (B (str_of_nat (length content))) + length content.
Proof. unfold bulk_wire. rewrite !length_app. simpl. lia. Qed.

Lemma follows_one_feed_at k pre buffer incoming r1 :
  follows pre (buffer :: incoming) r1 ->
  0 < k -> k + length pre < length buffer ->
  boundary_at k r1 = false.
Proof.
  intros F K H. destruct k as [|j]; [lia|].
  now apply (follows_one_feed pre buffer incoming).
Qed.

(** From the wire to the reply.  A request [*2 $4 ECHO $N <content>], the
    name in any case of its letters and the content ASCII, that came with
    one feed: it is decoded to the list of the name and of the content
    without the white space at its ends, the bulk string of this text is
    written, and the connection goes on with what follows the request. *)
Theorem echo_from_wire name content rest incoming w :
  upper name = "ECHO" -> forallb is_ascii_byte content = true ->
  let request :=
    B "*2" ++ END_OF_FIELD ++ bulk_wire (B name) ++ bulk_wire content in
  let text := rstrip (lstrip (string_of_list_byte content)) in
  exists r',
    pending r' = rest ++ concat incoming /\
    read_data ((request ++ rest) :: incoming)
      = Ok (Lst [Str name; Str text], r') /\
    handle_command ((request ++ rest) :: incoming) w
      = handle_command r' (w ++ bulk_wire (B text)).
Proof.
  intros U A request text.
  destruct (upper_ECHO_text name U) as [Dn Ln].
  set (r := (request ++ rest) :: incoming).
  set (tail2 := bulk_wire content ++ rest ++ concat incoming).
  set (tail1 := bulk_wire (B name) ++ tail2).
  assert (P : pending r = x2a :: [x32] ++ END_OF_FIELD ++ tail1).
  { unfold r, pending, request, tail1, tail2. cbn [concat].
    change (B "*2") with [x2a; x32]. now rewrite <- !app_assoc. }
  assert (Lb : length (request ++ rest)
               = 14 + length (bulk_wire content) + length rest).
  { unfold request. rewrite !length_app, bulk_wire_length, Ln. simpl. lia. }
  destruct (read_type_marker r _ _ P) as (r0 & F0 & T).
  change (bytes_eqb [x2a] (B "*")) with true in T. cbv iota in T.
  assert (P0 : pending r0 = [x32] ++ END_OF_FIELD ++ tail1).
  { destruct F0 as [E _]. rewrite P in E. now injection E. }
  destruct (read_next_field_token r0 [x32] tail1 P0) as (r1 & Fd & F1).
  { simpl. intros [H|[]]. discriminate. }
  pose proof (follows_trans _ _ _ _ _ F0 F1) as F01.
  assert (P1 : pending r1 = tail1).
  { destruct F1 as [E _]. rewrite P0, app_assoc in E.
    now apply app_inv_head in E. }
  destruct (read_data_bulk_wire_follows r1 (B name) tail2 P1) as (r2 & F2 & D1).
  { apply (follows_one_feed_at _ _ _ _ _ F01).
    - rewrite bulk_wire_length. lia.
    - rewrite Lb, bulk_wire_length, Ln. simpl. lia. }
  rewrite Dn in D1. cbn [bind] in D1.
  pose proof (follows_trans _ _ _ _ _ F01 F2) as F02.
  assert (P2 : pending r2 = tail2).
  { destruct F2 as [E _]. rewrite P1 in E. unfold tail1 in E.
    now apply app_inv_head in E. }
  destruct (read_data_bulk_wire_follows r2 content _ P2) as (r3 & F3 & D2).
  { apply (follows_one_feed_at _ _ _ _ _ F02).
    - rewrite bulk_wire_length. lia.
    - rewrite Lb, !length_app, !bulk_wire_length, Ln. simpl. lia. }
  rewrite (decode_strip_ok _ A) in D2. cbn [bind] in D2. fold text in D2.
  assert (P3 : pending r3 = rest ++ concat incoming).
  { destruct F3 as [E _]. rewrite P2 in E. unfold tail2 in E.
    now apply app_inv_head in E. }
  assert (D : read_data r = Ok (Lst [Str name; Str text], r3)).
  { rewrite read_data_unfold, T. cbn [bind].
    rewrite read_array_unfold, Fd.
    change (int_field ([x32] ++ END_OF_FIELD)) with (Ok 2%Z). cbn [bind].
    change (Z.to_nat 2) with 2.
    rewrite (read_items_decoded 2 [] r1 [Str name; Str text] r3);
      [reflexivity| |reflexivity].
    eauto using decoded_cons, decoded_nil. }
  exists r3. split; [exact P3|]. split; [exact D|].
  rewrite handle_command_unfold. fold r. rewrite D.
  rewrite (proj1 (handle_request_ECHO name [Str text] w U)).
  unfold handle_echo. rewrite make_bulk_string_text; [reflexivity|].
  unfold text.
  destruct (decode_strip_Ok content text) as [_ Q]; [|exact Q].
  exact (decode_strip_ok _ A).
Qed.

Lemma echo_from_wire_witness :
  exists r',
    pending r' = B "+PING" ++ concat [END_OF_FIELD] /\
    read_data
      ((B "*2" ++ END_OF_FIELD ++ bulk_wire (B "echo") ++ bulk_wire (B " hi ")
          ++ B "+PING") :: [END_OF_FIELD])
      = Ok (Lst [Str "echo"; Str (rstrip (lstrip (string_of_list_byte (B " hi "))))],
            r') /\
    handle_command
      ((B "*2" ++ END_OF_FIELD ++ bulk_wire (B "echo") ++ bulk_wire (B " hi ")
          ++ B "+PING") :: [END_OF_FIELD]) []
      = handle_command r'
          ([] ++ bulk_wire (B (rstrip (lstrip (string_of_list_byte (B " hi ")))))).
Proof.
  exact (echo_from_wire "echo" (B " hi ") (B "+PING") [END_OF_FIELD] []
           eq_refl eq_refl).
Defined.


(** ** Feeds *)

Lemma first_terminator_unique (f1 p1 f2 p2 : bytes) :
  f1 ++ p1 = f2 ++ p2 ->
  (endswith f1 END_OF_FIELD = true \/ p1 = []) ->
  (endswith f2 END_OF_FIELD = true \/ p2 = []) ->
  (forall p q, f1 = p ++ q -> q <> [] -> endswith p END_OF_FIELD = false) ->
  (forall p q, f2 = p ++ q -> q <> [] -> endswith p END_OF_FIELD = false) ->
  f1 = f2 /\ p1 = p2.
Proof.
  intros E X1 X2 M1 M2.
  assert (G : forall (f1 p1 f2 p2 d : bytes),
             f1 = f2 ++ d -> p2 = d ++ p1 ->
             (endswith f2 END_OF_FIELD = true \/ p2 = []) ->
             (forall p q, f1 = p ++ q -> q <> [] ->
                          endswith p END_OF_FIELD = false) ->
             d = []).
  { clear. intros f1 p1 f2 p2 d -> -> X M.
    destruct d as [|x d]; [reflexivity|exfalso]. destruct X as [X|X].
    - rewrite (M f2 (x :: d) eq_refl) in X; discriminate.
    - discriminate. }
  apply app_eq_app in E as (d & [[E1 E2]|[E1 E2]]).
  - pose proof (G f1 p1 f2 p2 d E1 E2 X2 M1) as ->.
    rewrite app_nil_r in E1. simpl in E2. auto.
  - pose proof (G f2 p2 f1 p1 d E1 E2 X1 M2) as ->.
    rewrite app_nil_r in E1. simpl in E2. auto.
Qed.

Lemma read_next_field_feeds r q :
  pending r = pending q ->
  exists field r' q',
    read_next_field r = (field, r') /\ read_next_field q = (field, q') /\
    pending r' = pending q'.
Proof.
  intros E.
  destruct (read_next_field_loop_first (S (length (pending r))) [] r)
    as (f1 & r' & L1 & [P1 _] & X1 & M1); [lia|].
  destruct (read_next_field_loop_first (S (length (pending q))) [] q)
    as (f2 & q' & L2 & [P2 _] & X2 & M2); [lia|].
  cbn [app] in *. rewrite P1, P2 in E.
  destruct (first_terminator_unique f1 (pending r') f2 (pending q') E X1 X2 M1 M2)
    as [<- Q].
  now exists f1, r', q'.
Qed.

(** How the bytes are cut into feeds does not matter to the marker, to a
    field and to a simple string: two readers with the same bytes pending
    give the same outcome.  It matters to a bulk string, whose terminator is
    asked for with one [read(2)]: the same bytes are decoded when they come
    with one feed and fail the [assert] when a feed ends inside the
    terminator. *)
Theorem feeds_do_not_matter r q :
  pending r = pending q ->
  same_outcome (read_type r) (read_type q) /\
  same_outcome (Ok (read_next_field r)) (Ok (read_next_field q)) /\
  same_outcome (read_simple_string r) (read_simple_string q) /\
  (exists r q, pending r = pending q /\
     ~ same_outcome (read_bulk_string r) (read_bulk_string q)).
Proof.
  intros E.
  destruct (read_next_field_feeds r q E) as (field & r' & q' & Fr & Fq & P).
  split; [|split; [|split]].
  - destruct (pending r) as [|b rest] eqn:Pr.
    + rewrite (read_type_eof r Pr), (read_type_eof q); [reflexivity|].
      now rewrite <- E.
    + symmetry in E.
      destruct (read_type_marker r b rest Pr) as (r1 & [E1 _] & ->).
      destruct (read_type_marker q b rest E) as (q1 & [E2 _] & ->).
      rewrite Pr in E1. rewrite E in E2.
      injection E1 as E1. injection E2 as E2.
      repeat match goal with
             | |- context [if ?c then _ else _] => destruct c
             end; simpl; split; congruence.
  - rewrite Fr, Fq. simpl. auto.
  - unfold read_simple_string. rewrite Fr, Fq.
    destruct (decode_strip field); simpl; auto.
  - exists [B "1" ++ END_OF_FIELD ++ B "a" ++ END_OF_FIELD],
           [B "1" ++ END_OF_FIELD ++ B "a" ++ [x0d]; [x0a]].
    split; [reflexivity|]. vm_compute. tauto.
Qed.

Lemma feeds_do_not_matter_witness :
  same_outcome (read_simple_string [B "PI"; B "NG" ++ [x0d]; [x0a] ++ B "+"])
               (read_simple_string [B "PING" ++ END_OF_FIELD ++ B "+"]).
Proof.
  apply (feeds_do_not_matter [B "PI"; B "NG" ++ [x0d]; [x0a] ++ B "+"]
           [B "PING" ++ END_OF_FIELD ++ B "+"] eq_refl).
Defined.
